(** * forex-dash: the portfolio ledger, the valuation functions and the price feed

    A shallow embedding of
      - [store/portfolioSlice] (the [placeOrder] reducer and its [prepare]),
      - [components/Portfolio.tsx] ([rowPnl], [calculateTotalPnl],
        [portfolioMetrics], [handleTrade]),
      - [services/feed.ts] (class [PriceFeed]).

    JavaScript numbers are modelled as exact rationals ([Q]); [NaN] and the
    infinities are not represented.  Arithmetic results are compared with
    [==] ([Qeq]), everything else with Leibniz equality. *)

From Stdlib Require Import ZArith QArith Qabs Qround List String Bool Lia Lqa.
Import ListNotations.

Open Scope Q_scope.

(** ** types.ts *)

Inductive SymbolCode : Type := EURUSD | GBPUSD | XAUUSD.

Inductive Side : Type := BUY | SELL.

Record Tick : Type := mkTick {
  tick_symbol : SymbolCode;
  tick_price : Q;
  tick_ts : Z
}.

Record Position : Type := mkPosition {
  pos_symbol : SymbolCode;
  pos_qty : Q;
  pos_avgPrice : Q
}.

Record Trade : Type := mkTrade {
  trade_id : string;
  trade_symbol : SymbolCode;
  trade_qty : Q;
  trade_price : Q;
  trade_ts : Z;
  trade_side : Side
}.

Definition SymbolCode_eqb (a b : SymbolCode) : bool :=
  match a, b with
  | EURUSD, EURUSD | GBPUSD, GBPUSD | XAUUSD, XAUUSD => true
  | _, _ => false
  end.

(** An object of type [Record<SymbolCode, A>]: one slot per symbol code. *)
Record PerSymbol (A : Type) : Type := mkPerSymbol {
  at_EURUSD : A;
  at_GBPUSD : A;
  at_XAUUSD : A
}.
Arguments mkPerSymbol {A}.
Arguments at_EURUSD {A}.
Arguments at_GBPUSD {A}.
Arguments at_XAUUSD {A}.

(** [r[s]] *)
Definition get {A} (r : PerSymbol A) (s : SymbolCode) : A :=
  match s with
  | EURUSD => at_EURUSD r
  | GBPUSD => at_GBPUSD r
  | XAUUSD => at_XAUUSD r
  end.

(** [r[s] = v] *)
Definition set {A} (r : PerSymbol A) (s : SymbolCode) (v : A) : PerSymbol A :=
  match s with
  | EURUSD => mkPerSymbol v (at_GBPUSD r) (at_XAUUSD r)
  | GBPUSD => mkPerSymbol (at_EURUSD r) v (at_XAUUSD r)
  | XAUUSD => mkPerSymbol (at_EURUSD r) (at_GBPUSD r) v
  end.

(** [Object.keys] of such an object, in creation order. *)
Definition SYMBOL_KEYS : list SymbolCode := [EURUSD; GBPUSD; XAUUSD].

(** [Math.sign] on a finite number: -1, 0 or 1. *)
Definition Math_sign (x : Q) : Z := Z.sgn (Qnum x).

(** [Math.floor(ms / 1000)] on an integral millisecond count. *)
Definition floor_seconds (ms : Z) : Z := (ms / 1000)%Z.

(** ** store/portfolioSlice *)

Module Ledger.

Record PortfolioState : Type := mkState {
  cash : Q;
  positions : PerSymbol (option Position);
  trades : list Trade
}.

Definition initialState : PortfolioState :=
  {| cash := 100000;
     positions := mkPerSymbol None None None;
     trades := [] |}.

Record OrderPayload : Type := mkOrder {
  o_symbol : SymbolCode;
  o_qty : Q;     (* positive to buy, negative to sell *)
  o_price : Q
}.

(** [prepare]: [nanoid] is the generated id, [now] is [Date.now()]. *)
Definition prepare (nanoid : string) (now : Z) (o : OrderPayload) : Trade :=
  let side := if Qle_bool 0 (o_qty o) then BUY else SELL in
  {| trade_id := nanoid;
     trade_symbol := o_symbol o;
     trade_qty := Qabs (o_qty o);
     trade_price := o_price o;
     trade_ts := floor_seconds now;
     trade_side := side |}.

(** [reducer]: the draft mutation, written as the state it produces. *)
Definition reducer (state : PortfolioState) (trade : Trade) : PortfolioState :=
  let sign : Q := match trade_side trade with BUY => 1 | SELL => -(1) end in
  let cost := trade_price trade * trade_qty trade * sign in
  let cash' := cash state - cost in
  let existing := get (positions state) (trade_symbol trade) in
  let q := trade_qty trade * sign in
  let positions' :=
    match existing with
    | None =>
        set (positions state) (trade_symbol trade)
            (Some {| pos_symbol := trade_symbol trade;
                     pos_qty := q;
                     pos_avgPrice := trade_price trade |})
    | Some existing =>
        let prevQty := pos_qty existing in
        let newQty := prevQty + q in
        if Qeq_bool newQty 0 then
          set (positions state) (trade_symbol trade) None
        else if (Math_sign prevQty =? Math_sign newQty)%Z then
          let totalCost :=
            pos_avgPrice existing * Qabs prevQty + trade_price trade * Qabs q in
          set (positions state) (trade_symbol trade)
              (Some {| pos_symbol := pos_symbol existing;
                       pos_qty := newQty;
                       pos_avgPrice := totalCost / (Qabs prevQty + Qabs q) |})
        else
          set (positions state) (trade_symbol trade)
              (Some {| pos_symbol := pos_symbol existing;
                       pos_qty := newQty;
                       pos_avgPrice :=
                         if negb (Math_sign newQty =? Math_sign prevQty)%Z
                         then trade_price trade
                         else pos_avgPrice existing |})
    end in
  {| cash := cash'; positions := positions'; trades := trade :: trades state |}.

(** Dispatching the [placeOrder] action: [prepare], then [reducer]. *)
Definition placeOrder (state : PortfolioState) (nanoid : string) (now : Z)
    (o : OrderPayload) : PortfolioState :=
  reducer state (prepare nanoid now o).

(** One dispatched action with the values [nanoid()] and [Date.now()] took. *)
Record Dispatch : Type := mkDispatch {
  d_nanoid : string;
  d_now : Z;
  d_order : OrderPayload
}.

Definition dispatch (state : PortfolioState) (d : Dispatch) : PortfolioState :=
  placeOrder state (d_nanoid d) (d_now d) (d_order d).

Definition dispatchAll (state : PortfolioState) (ds : list Dispatch)
    : PortfolioState :=
  fold_left dispatch ds state.

(** The quantity held in [s]: the position's, or 0 when there is none. *)
Definition quantity (state : PortfolioState) (s : SymbolCode) : Q :=
  match get (positions state) s with
  | Some p => pos_qty p
  | None => 0
  end.

Definition hasEntry (state : PortfolioState) (s : SymbolCode) : bool :=
  match get (positions state) s with
  | Some _ => true
  | None => false
  end.

End Ledger.

(** ** components/Portfolio.tsx *)

Module Portfolio.
Import Ledger.

Definition rowPnl (qty avg : Q) (last : option Q) : Q :=
  match last with
  | None => 0
  | Some last => (last - avg) * qty
  end.

(** [Object.entries(positions).reduce(..., 0)] *)
Definition calculateTotalPnl (positions : PerSymbol (option Position))
    (lastPrices : PerSymbol (option Q)) : Q :=
  fold_left
    (fun total symbol =>
       match get positions symbol with
       | None => total
       | Some position =>
           match get lastPrices symbol with
           | None => total
           | Some lastPrice =>
               total + rowPnl (pos_qty position) (pos_avgPrice position)
                              (Some lastPrice)
           end
       end)
    SYMBOL_KEYS 0.

Record Metrics : Type := mkMetrics {
  equity : Q;
  totalPnl : Q;
  dayChange : Q;
  dayChangePercent : Q;
  totalValue : Q
}.

(** [x ?? 0] *)
Definition orZero (x : option Q) : Q :=
  match x with Some v => v | None => 0 end.

Definition portfolioMetrics (cash : Q) (positions : PerSymbol (option Position))
    (last : PerSymbol (option Q)) : Metrics :=
  let totalPnl := calculateTotalPnl positions last in
  let totalValue :=
    fold_left
      (fun acc sym =>
         acc + match get positions sym with
               | Some p => pos_qty p * orZero (get last sym)
               | None => 0
               end)
      [EURUSD; GBPUSD; XAUUSD] 0 in
  let equity := cash + totalValue in
  let dayChange := totalPnl in
  let dayChangePercent :=
    if Qlt_le_dec 0 equity then (dayChange / equity) * 100 else 0 in
  {| equity := equity; totalPnl := totalPnl; dayChange := dayChange;
     dayChangePercent := dayChangePercent; totalValue := totalValue |}.

Record Form : Type := mkForm { form_symbol : SymbolCode; form_qty : Q }.

(** [handleTrade]: the ledger after the click; [placeOrder] is dispatched
    only behind the [price > 0] test. *)
Definition handleTrade (side : Side) (form : Form) (last : PerSymbol (option Q))
    (state : PortfolioState) (nanoid : string) (now : Z) : PortfolioState :=
  let qty := match side with
             | BUY => Qabs (form_qty form)
             | SELL => - Qabs (form_qty form)
             end in
  let price := orZero (get last (form_symbol form)) in
  if Qlt_le_dec 0 price then
    placeOrder state nanoid now
      {| o_symbol := form_symbol form; o_qty := qty; o_price := price |}
  else state.

(** The valuation formulas as the specification words them. *)
Definition spec_unrealizedPnl (p : Position) (lastPrice : option Q) : Q :=
  match lastPrice with
  | Some l => (l - pos_avgPrice p) * pos_qty p
  | None => 0
  end.

Definition spec_marketValue (p : option Position) (lastPrice : option Q) : Q :=
  match p, lastPrice with
  | Some p, Some l => pos_qty p * l
  | _, _ => 0
  end.

Definition spec_held {A} (f : Position -> option Q -> A) (zero : A)
    (positions : PerSymbol (option Position)) (last : PerSymbol (option Q))
    (s : SymbolCode) : A :=
  match get positions s with
  | Some p => f p (get last s)
  | None => zero
  end.

Definition spec_totalPnl (positions : PerSymbol (option Position))
    (last : PerSymbol (option Q)) : Q :=
  spec_held spec_unrealizedPnl 0 positions last EURUSD
  + spec_held spec_unrealizedPnl 0 positions last GBPUSD
  + spec_held spec_unrealizedPnl 0 positions last XAUUSD.

Definition spec_equity (cash : Q) (positions : PerSymbol (option Position))
    (last : PerSymbol (option Q)) : Q :=
  cash + (spec_marketValue (get positions EURUSD) (get last EURUSD)
          + spec_marketValue (get positions GBPUSD) (get last GBPUSD)
          + spec_marketValue (get positions XAUUSD) (get last XAUUSD)).

Definition spec_dayChangePercent (totalPnl equity : Q) : Q :=
  if Qlt_le_dec 0 equity then (totalPnl / equity) * 100 else 0.

End Portfolio.

(** ** constants.ts *)

(** The seed prices of [src/constants.ts], the file [feed.ts] imports:
    EURUSD 1.0850 and GBPUSD 1.2700.  Its third key is ETHUSDT, so it has
    no entry for XAUUSD: [prices.XAUUSD] starts as [undefined] and the
    generator's XAUUSD ticks are [NaN] until a live price is stored.  [NaN]
    is not a number of this model; the slot holds 0 in its place, which like
    [NaN] is kept by the generator step and fails every [> 0] test.  No fact
    below speaks about the initial content of that slot. *)
Definition STARTING_PRICES : PerSymbol Q :=
  mkPerSymbol (10850 # 10000) (12700 # 10000) 0.

Definition TICK_MS : Z := 500.

(** ** services/feed.ts *)

Module Feed.

(** JavaScript truthiness of a string. *)
Definition truthy (s : string) : bool :=
  match s with EmptyString => false | String _ _ => true end.

(** [env?.VITE_FINNHUB_API_KEY || "d1eh..."] *)
Definition FINNHUB_KEY (vite_env : option string) : string :=
  let fallback := "d1ehg3pr01qjssrk5gkgd1ehg3pr01qjssrk5gl0"%string in
  match vite_env with
  | Some k => if truthy k then k else fallback
  | None => fallback
  end.

Definition mapToFinnhub : PerSymbol string :=
  mkPerSymbol "OANDA:EUR_USD"%string "OANDA:GBP_USD"%string
              "OANDA:XAU_USD"%string.

Definition mapFromFinnhub (s : string) : option SymbolCode :=
  if String.eqb s "OANDA:EUR_USD" then Some EURUSD
  else if String.eqb s "OANDA:GBP_USD" then Some GBPUSD
  else if String.eqb s "OANDA:XAU_USD" then Some XAUUSD
  else None.

(** [mapFromFinnhub] above is the table's own entries.  The table is a plain
    object, so reading [mapFromFinnhub[key]] also finds the properties every
    object inherits from [Object.prototype]; each of them is a function or
    an object, hence truthy. *)
Definition inherited_keys : list string :=
  ["constructor"; "hasOwnProperty"; "isPrototypeOf"; "propertyIsEnumerable";
   "toLocaleString"; "toString"; "valueOf"; "__proto__";
   "__defineGetter__"; "__defineSetter__"; "__lookupGetter__";
   "__lookupSetter__"]%string.

(** What the property read [mapFromFinnhub[key]] yields. *)
Inductive Lookup : Type :=
| Instrument (s : SymbolCode)
| Inherited
| Undefined.

Definition lookupFromFinnhub (key : string) : Lookup :=
  match mapFromFinnhub key with
  | Some s => Instrument s
  | None =>
      if existsb (String.eqb key) inherited_keys then Inherited else Undefined
  end.

(** A subscriber is an opaque callback: it has an identity (the function
    object), and a call with a tick either returns or throws. *)
Record Subscriber : Type := mkSubscriber {
  cb_id : nat;
  cb_throws : Tick -> bool
}.

(** [Set<Subscriber>]: insertion order, membership by identity. *)
Definition Set_has (s : list Subscriber) (cb : Subscriber) : bool :=
  existsb (fun x => Nat.eqb (cb_id x) (cb_id cb)) s.

Definition Set_add (s : list Subscriber) (cb : Subscriber) : list Subscriber :=
  if Set_has s cb then s else s ++ [cb].

Definition Set_delete (s : list Subscriber) (cb : Subscriber)
    : list Subscriber :=
  filter (fun x => negb (Nat.eqb (cb_id x) (cb_id cb))) s.

(** The fields of a [PriceFeed] instance.  [maxReconnectAttempts] and
    [reconnectDelay] are never assigned after construction. *)
Record PriceFeed : Type := mkPriceFeed {
  subs : PerSymbol (list Subscriber);
  timer : option nat;
  prices : PerSymbol Q;
  ws : option nat;
  usingWs : bool;
  reconnectAttempts : Z;
  isConnected : bool
}.

Definition maxReconnectAttempts : Z := 5.
Definition reconnectDelay : Z := 1000.

(** [readyState] of a [WebSocket]. *)
Inductive ReadyState : Type := CONNECTING | OPEN | CLOSING | CLOSED.

(** What the page's environment holds on behalf of the feed: the running
    [setInterval] timers, the pending [setTimeout] timers (with their delay),
    every [WebSocket] that [initWs] created (each carries the four listeners
    [initWs] attaches), the frames sent, and the record of callback calls. *)
Record Browser : Type := mkBrowser {
  vite_env : option string;
  next_handle : nat;
  intervals : list (nat * Z);
  timeouts : list (nat * Z);
  sockets : list (nat * ReadyState);
  sent : list (nat * string);
  calls : list (nat * Tick)
}.

Record World : Type := mkWorld { feed : PriceFeed; browser : Browser }.

Inductive Completion : Type := Normal | Thrown.

(** *** Field updates *)

Definition with_feed (w : World) (f : PriceFeed -> PriceFeed) : World :=
  {| feed := f (feed w); browser := browser w |}.

Definition with_browser (w : World) (f : Browser -> Browser) : World :=
  {| feed := feed w; browser := f (browser w) |}.

Definition set_subs v (p : PriceFeed) : PriceFeed :=
  mkPriceFeed v (timer p) (prices p) (ws p) (usingWs p)
              (reconnectAttempts p) (isConnected p).
Definition set_timer v (p : PriceFeed) : PriceFeed :=
  mkPriceFeed (subs p) v (prices p) (ws p) (usingWs p)
              (reconnectAttempts p) (isConnected p).
Definition set_prices v (p : PriceFeed) : PriceFeed :=
  mkPriceFeed (subs p) (timer p) v (ws p) (usingWs p)
              (reconnectAttempts p) (isConnected p).
Definition set_ws v (p : PriceFeed) : PriceFeed :=
  mkPriceFeed (subs p) (timer p) (prices p) v (usingWs p)
              (reconnectAttempts p) (isConnected p).
Definition set_usingWs v (p : PriceFeed) : PriceFeed :=
  mkPriceFeed (subs p) (timer p) (prices p) (ws p) v
              (reconnectAttempts p) (isConnected p).
Definition set_reconnectAttempts v (p : PriceFeed) : PriceFeed :=
  mkPriceFeed (subs p) (timer p) (prices p) (ws p) (usingWs p)
              v (isConnected p).
Definition set_isConnected v (p : PriceFeed) : PriceFeed :=
  mkPriceFeed (subs p) (timer p) (prices p) (ws p) (usingWs p)
              (reconnectAttempts p) v.

(** *** The environment's primitives *)

(** [window.setInterval(cb, ms)]: handles are positive, hence truthy. *)
Definition setInterval (ms : Z) (b : Browser) : nat * Browser :=
  let h := next_handle b in
  (h, mkBrowser (vite_env b) (S h) (intervals b ++ [(h, ms)]) (timeouts b)
                (sockets b) (sent b) (calls b)).

Definition drop_handle {A} (h : nat) (l : list (nat * A)) : list (nat * A) :=
  filter (fun x => negb (Nat.eqb (fst x) h)) l.

Definition has_handle {A} (h : nat) (l : list (nat * A)) : bool :=
  existsb (fun x => Nat.eqb (fst x) h) l.

Definition clearInterval (h : nat) (b : Browser) : Browser :=
  mkBrowser (vite_env b) (next_handle b) (drop_handle h (intervals b))
            (timeouts b) (sockets b) (sent b) (calls b).

Definition setTimeout (ms : Z) (b : Browser) : Browser :=
  let h := next_handle b in
  mkBrowser (vite_env b) (S h) (intervals b) (timeouts b ++ [(h, ms)])
            (sockets b) (sent b) (calls b).

(** A pending timeout fires once. *)
Definition expire (h : nat) (b : Browser) : Browser :=
  mkBrowser (vite_env b) (next_handle b) (intervals b)
            (drop_handle h (timeouts b)) (sockets b) (sent b) (calls b).

(** [new WebSocket(url)] when the constructor returns. *)
Definition new_WebSocket (b : Browser) : nat * Browser :=
  let h := next_handle b in
  (h, mkBrowser (vite_env b) (S h) (intervals b) (timeouts b)
                (sockets b ++ [(h, CONNECTING)]) (sent b) (calls b)).

Definition readyState (h : nat) (b : Browser) : option ReadyState :=
  match find (fun x => Nat.eqb (fst x) h) (sockets b) with
  | Some (_, st) => Some st
  | None => None
  end.

Definition set_readyState (h : nat) (st : ReadyState) (b : Browser) : Browser :=
  mkBrowser (vite_env b) (next_handle b) (intervals b) (timeouts b)
            (map (fun x => if Nat.eqb (fst x) h then (h, st) else x)
                 (sockets b))
            (sent b) (calls b).

(** [ws.close()]: a socket that is connecting or open starts closing. *)
Definition ws_close (h : nat) (b : Browser) : Browser :=
  match readyState h b with
  | Some CONNECTING | Some OPEN => set_readyState h CLOSING b
  | _ => b
  end.

Definition ws_send (h : nat) (frame : string) (b : Browser) : Browser :=
  mkBrowser (vite_env b) (next_handle b) (intervals b) (timeouts b)
            (sockets b) (sent b ++ [(h, frame)]) (calls b).

Definition log_call (cb : nat) (tick : Tick) (b : Browser) : Browser :=
  mkBrowser (vite_env b) (next_handle b) (intervals b) (timeouts b)
            (sockets b) (sent b) (calls b ++ [(cb, tick)]).

(** *** Calling subscribers *)

(** [cb(tick)] *)
Definition call (tick : Tick) (cb : Subscriber) (w : World)
    : World * Completion :=
  (with_browser w (log_call (cb_id cb) tick),
   if cb_throws cb tick then Thrown else Normal).

(** [xs.forEach(f)]: an exception leaves the loop. *)
Fixpoint forEach {A} (f : A -> World -> World * Completion) (xs : list A)
    (w : World) : World * Completion :=
  match xs with
  | [] => (w, Normal)
  | x :: rest =>
      match f x w with
      | (w', Normal) => forEach f rest w'
      | (w', Thrown) => (w', Thrown)
      end
  end.

(** [this.subs[symbol].forEach(cb => cb(tick))] *)
Definition deliver (tick : Tick) (w : World) : World * Completion :=
  forEach (call tick) (get (subs (feed w)) (tick_symbol tick)) w.

(** *** The synthetic generator *)

Definition vol (symbol : SymbolCode) : Q :=
  match symbol with
  | XAUUSD => 4 # 1000
  | _ => 3 # 10000
  end.

(** [last * (1 + (Math.random() - 0.5) * vol)], [u] the value drawn. *)
Definition simNext (symbol : SymbolCode) (last u : Q) : Q :=
  last * (1 + (u - (1 # 2)) * vol symbol).

(** [Number(x.toFixed(5))]: the nearest multiple of 10^-5, a tie going to
    the larger magnitude. *)
Definition toFixed5 (x : Q) : Q :=
  let n := Qfloor (Qabs x * 100000 + (1 # 2)) in
  if Qlt_le_dec x 0 then (- n)%Z # 100000 else n # 100000.

(** The body run for one [symbol] inside the interval callback. *)
Definition simSymbol (ts : Z) (rnd : SymbolCode -> Q) (symbol : SymbolCode)
    (w : World) : World * Completion :=
  let last := get (prices (feed w)) symbol in
  let next := simNext symbol last (rnd symbol) in
  let w1 := with_feed w (set_prices (set (prices (feed w)) symbol next)) in
  let tick := {| tick_symbol := symbol; tick_price := toFixed5 next;
                 tick_ts := ts |} in
  deliver tick w1.

(** The callback [startSim] hands to [setInterval]; [now] is [Date.now()]
    and [rnd s] the value [Math.random()] returns while [s] is handled. *)
Definition simCallback (now : Z) (rnd : SymbolCode -> Q) (w : World)
    : World * Completion :=
  let ts := floor_seconds now in
  forEach (simSymbol ts rnd) SYMBOL_KEYS w.

Definition startSim (w : World) : World :=
  match timer (feed w) with
  | Some _ => w
  | None =>
      let (h, b) := setInterval TICK_MS (browser w) in
      {| feed := set_timer (Some h) (feed w); browser := b |}
  end.

(** *** The live connection *)

(** [initWs]: [ctor_throws] tells whether [new WebSocket(url)] throws. *)
Definition initWs (ctor_throws : bool) (w : World) : World * Completion :=
  if ctor_throws then (w, Thrown)
  else
    let (h, b) := new_WebSocket (browser w) in
    ({| feed := set_ws (Some h) (feed w); browser := b |}, Normal).

Definition start (ctor_throws : bool) (w : World) : World :=
  if truthy (FINNHUB_KEY (vite_env (browser w)))
     && negb (match ws (feed w) with Some _ => true | None => false end)
  then
    match initWs ctor_throws w with
    | (w1, Normal) => with_feed w1 (set_usingWs true)
    | (w1, Thrown) => startSim w1
    end
  else startSim w.

Definition handleReconnect (w : World) : World :=
  if (reconnectAttempts (feed w) <? maxReconnectAttempts)%Z then
    let w1 :=
      with_feed w (set_reconnectAttempts (reconnectAttempts (feed w) + 1)%Z) in
    with_browser w1
      (setTimeout (reconnectDelay * reconnectAttempts (feed w1))%Z)
  else startSim w.

Definition cleanupWs (w : World) : World :=
  let w1 :=
    match ws (feed w) with
    | Some h => with_feed (with_browser w (ws_close h)) (set_ws None)
    | None => w
    end in
  with_feed (with_feed w1 (set_usingWs false)) (set_isConnected false).

Record ConnectionStatus : Type := mkStatus {
  st_isConnected : bool;
  st_usingWebSocket : bool;
  st_reconnectAttempts : Z
}.

Definition getConnectionStatus (w : World) : ConnectionStatus :=
  {| st_isConnected := isConnected (feed w);
     st_usingWebSocket := usingWs (feed w);
     st_reconnectAttempts := reconnectAttempts (feed w) |}.

Definition stop (w : World) : World :=
  let w1 :=
    match timer (feed w) with
    | Some h => with_feed (with_browser w (clearInterval h)) (set_timer None)
    | None => w
    end in
  match ws (feed w1) with
  | Some _ => cleanupWs w1
  | None => w1
  end.

Definition subscribe (symbol : SymbolCode) (cb : Subscriber) (now : Z)
    (w : World) : World * Completion :=
  let w1 :=
    with_feed w
      (set_subs (set (subs (feed w)) symbol
                     (Set_add (get (subs (feed w)) symbol) cb))) in
  call {| tick_symbol := symbol; tick_price := get (prices (feed w1)) symbol;
          tick_ts := floor_seconds now |} cb w1.

(** The handle [subscribe] returns. *)
Definition unsubscribe (symbol : SymbolCode) (cb : Subscriber) (w : World)
    : World :=
  with_feed w
    (set_subs (set (subs (feed w)) symbol
                   (Set_delete (get (subs (feed w)) symbol) cb))).

(** *** The listeners [initWs] attaches to the socket [h] it created *)

Definition subscribeFrame (sym : string) : string :=
  ("{type:subscribe,symbol:" ++ sym ++ "}")%string.

Definition onOpen (h : nat) (w : World) : World :=
  let w1 := with_feed (with_feed w (set_isConnected true))
                      (set_reconnectAttempts 0%Z) in
  fold_left
    (fun acc sym => with_browser acc (ws_send h (subscribeFrame sym)))
    (map (get mapToFinnhub) SYMBOL_KEYS) w1.

(** One element of [msg.data]. *)
Record TradeDatum : Type := mkDatum { d_s : string; d_p : Q; d_t : Z }.

(** What [JSON.parse(ev.data)] yields. *)
Inductive WsMsg : Type :=
| MsgTrade (data : list TradeDatum)
| MsgError
| MsgOther.

(** An inherited key passes the [if (!s) return] test with a value that is
    no instrument: the price is stored under a key of [this.prices] that no
    instrument reads (not represented), [this.subs[s]] is [undefined] and
    its [forEach] throws a [TypeError]. *)
Definition onDatum (d : TradeDatum) (w : World) : World * Completion :=
  match lookupFromFinnhub (d_s d) with
  | Undefined => (w, Normal)
  | Inherited => (w, Thrown)
  | Instrument s =>
      let tick := {| tick_symbol := s; tick_price := d_p d;
                     tick_ts := floor_seconds (d_t d) |} in
      let w1 := with_feed w (set_prices (set (prices (feed w)) s
                                             (tick_price tick))) in
      deliver tick w1
  end.

(** The message listener: [parsed = None] when [JSON.parse] throws; whatever
    is thrown inside the [try] is caught and logged. *)
Definition onMessage (parsed : option WsMsg) (w : World) : World :=
  match parsed with
  | Some (MsgTrade data) => fst (forEach onDatum data w)
  | Some MsgError => w
  | Some MsgOther => w
  | None => w
  end.

Definition onError (w : World) : World :=
  handleReconnect (with_feed w (set_isConnected false)).

Definition onClose (w : World) : World :=
  handleReconnect (cleanupWs (with_feed w (set_isConnected false))).

(** The callback [handleReconnect] hands to [setTimeout]. *)
Definition onReconnectTimer (ctor_throws : bool) (w : World) : World :=
  if negb (isConnected (feed w)) then fst (initWs ctor_throws w) else w.

(** *** The event loop *)

Inductive Event : Type :=
| Start (ctor_throws : bool)
| Stop
| Subscribe (symbol : SymbolCode) (cb : Subscriber) (now : Z)
| Unsubscribe (symbol : SymbolCode) (cb : Subscriber)
| IntervalFires (h : nat) (now : Z) (rnd : SymbolCode -> Q)
| TimeoutFires (h : nat) (ctor_throws : bool)
| WsOpen (h : nat)
| WsMessage (h : nat) (parsed : option WsMsg)
| WsError (h : nat)
| WsClose (h : nat).

(** Which events the environment can raise: a timer fires only while it is
    registered, a socket opens once, receives only while open, and raises
    nothing more once closed. *)
Definition enabled (w : World) (e : Event) : bool :=
  match e with
  | Start _ | Stop | Subscribe _ _ _ | Unsubscribe _ _ => true
  | IntervalFires h _ _ => has_handle h (intervals (browser w))
  | TimeoutFires h _ => has_handle h (timeouts (browser w))
  | WsOpen h =>
      match readyState h (browser w) with Some CONNECTING => true | _ => false end
  | WsMessage h _ =>
      match readyState h (browser w) with Some OPEN => true | _ => false end
  | WsError h | WsClose h =>
      match readyState h (browser w) with
      | Some CONNECTING | Some OPEN | Some CLOSING => true
      | _ => false
      end
  end.

Definition handle (w : World) (e : Event) : World :=
  match e with
  | Start ctor_throws => start ctor_throws w
  | Stop => stop w
  | Subscribe symbol cb now => fst (subscribe symbol cb now w)
  | Unsubscribe symbol cb => unsubscribe symbol cb w
  | IntervalFires _ now rnd => fst (simCallback now rnd w)
  | TimeoutFires h ctor_throws =>
      onReconnectTimer ctor_throws (with_browser w (expire h))
  | WsOpen h => onOpen h (with_browser w (set_readyState h OPEN))
  | WsMessage _ parsed => onMessage parsed w
  | WsError _ => onError w
  | WsClose h => onClose (with_browser w (set_readyState h CLOSED))
  end.

Definition step (w : World) (e : Event) : World :=
  if enabled w e then handle w e else w.

Definition run (w : World) (es : list Event) : World := fold_left step es w.

(** Every event of the trace is one the environment can raise when its
    turn comes. *)
Fixpoint feasible (w : World) (es : list Event) : bool :=
  match es with
  | [] => true
  | e :: rest => enabled w e && feasible (step w e) rest
  end.

(** [new PriceFeed()] in a freshly loaded page. *)
Definition newPriceFeed : PriceFeed :=
  {| subs := mkPerSymbol [] [] [];
     timer := None;
     prices := STARTING_PRICES;
     ws := None;
     usingWs := false;
     reconnectAttempts := 0%Z;
     isConnected := false |}.

Definition newWorld (vite : option string) : World :=
  {| feed := newPriceFeed;
     browser := {| vite_env := vite; next_handle := 1; intervals := [];
                   timeouts := []; sockets := []; sent := []; calls := [] |} |}.

(** The prices the generator stores for [symbol] when it runs once per
    element of [us], the values [Math.random()] returns for that symbol,
    starting from the stored price [last]. *)
Fixpoint simPrices (symbol : SymbolCode) (us : list Q) (last : Q) : list Q :=
  match us with
  | [] => []
  | u :: rest =>
      let next := simNext symbol last u in
      next :: simPrices symbol rest next
  end.

(** The tick prices it sends to the symbol's subscribers in those runs. *)
Definition simTicks (symbol : SymbolCode) (us : list Q) (last : Q) : list Q :=
  map toFixed5 (simPrices symbol us last).

End Feed.

(** ** The ledger's update rule in the specification's words *)

Module LedgerSpec.

Definition same_sign (a b : Q) : Prop :=
  (0 < a /\ 0 < b) \/ (a < 0 /\ b < 0) \/ (a == 0 /\ b == 0).

(** The quantity goes from one side of zero to the other. *)
Definition flips (prevQty newQty : Q) : Prop :=
  (0 < prevQty /\ newQty < 0) \/ (prevQty < 0 /\ 0 < newQty).

Definition blend (prevAvg prevQty price signedQuantity : Q) : Q :=
  (prevAvg * Qabs prevQty + price * Qabs signedQuantity)
  / (Qabs prevQty + Qabs signedQuantity).

(** The position of [s] is [(quantity, average)]. *)
Definition position_is (st : Ledger.PortfolioState) (s : SymbolCode)
    (quantity average : Q) : Prop :=
  exists p, get (Ledger.positions st) s = Some p
            /\ pos_qty p == quantity /\ pos_avgPrice p == average.

(** Every stored position has a non-zero quantity. *)
Definition no_zero_entry (st : Ledger.PortfolioState) : Prop :=
  forall s p, get (Ledger.positions st) s = Some p -> ~ pos_qty p == 0.

(** A price is missing or not positive. *)
Definition no_price (last : option Q) : Prop :=
  match last with
  | None => True
  | Some p => p <= 0
  end.

End LedgerSpec.

(** ** The feed's properties in the specification's words *)

Module FeedSpec.
Import Feed.

(** The calls made when the subscribers [cbs] each receive [tick]. *)
Definition invoked_with (tick : Tick) (cbs : list Subscriber)
    : list (nat * Tick) :=
  map (fun cb => (cb_id cb, tick)) cbs.

(** The part of the state the reconnect logic works on. *)
Definition ctl (w : World) : Z * list (nat * Z) :=
  (reconnectAttempts (feed w), timeouts (browser w)).

(** A reconnect timer waits [reconnectDelay * n] for some attempt
    number [n] between 1 and [maxReconnectAttempts]. *)
Definition linear_backoff (t : nat * Z) : Prop :=
  exists n, (1 <= n <= maxReconnectAttempts)%Z
            /\ snd t = (reconnectDelay * n)%Z.

Definition reconnect_bounded (c : Z * list (nat * Z)) : Prop :=
  (0 <= fst c <= maxReconnectAttempts)%Z /\ Forall linear_backoff (snd c).

(** A value [Math.random()] can return. *)
Definition unit_interval (u : Q) : Prop := 0 <= u /\ u < 1.

(** A subscriber that never throws. *)
Definition quiet (id : nat) : Subscriber :=
  {| cb_id := id; cb_throws := fun _ => false |}.

(** A subscriber that accepts the replayed tick of [subscribe] (made at
    time 0) and throws on every later tick. *)
Definition failing (id : nat) : Subscriber :=
  {| cb_id := id; cb_throws := fun t => (0 <? tick_ts t)%Z |}.

(** A well-formed trade frame for EURUSD. *)
Definition eurusd_trade (p : Q) (t : Z) : option WsMsg :=
  Some (MsgTrade [mkDatum "OANDA:EUR_USD" p t]).

Definition steady : SymbolCode -> Q := fun _ => 1 # 2.

(** [x^n] *)
Fixpoint Qpow (x : Q) (n : nat) : Q :=
  match n with
  | O => 1
  | S n => x * Qpow x n
  end.

(** [x] rounded up to twelve decimals. *)
Definition round_up (x : Q) : Q :=
  inject_Z (Qceiling (x * 1000000000000)) / 1000000000000.

(** The factor of one generator step of EURUSD when [Math.random()]
    returns 0. *)
Definition low_factor : Q := 1 + (0 - (1 # 2)) * vol EURUSD.

(** Upper bounds of [low_factor^(2^k)] by repeated squaring. *)
Fixpoint sq_bound (k : nat) : Q :=
  match k with
  | O => low_factor
  | S k => let b := sq_bound k in round_up (b * b)
  end.

(** The stored EURUSD price after [n] generator steps in each of which
    [Math.random()] returns 0. *)
Definition walk (n : nat) (p : Q) : Q :=
  Nat.iter n (fun x => Feed.simNext EURUSD x 0) p.

End FeedSpec.

(** ** store/marketSlice *)

Module Market.

Record MarketState : Type := mkMarket {
  lastPrice : PerSymbol (option Q)
}.

(** No price is known at first.  (The object literal lists a key ETHUSD
    in place of XAUUSD; reading an absent key gives [undefined] as well.) *)
Definition initialState : MarketState :=
  {| lastPrice := mkPerSymbol None None None |}.

Definition setLastPrice (state : MarketState) (symbol : SymbolCode) (price : Q)
    : MarketState :=
  {| lastPrice := set (lastPrice state) symbol (Some price) |}.

End Market.

(** ** components/ChartPanel.tsx: [processTick] *)

(** [Math.max] and [Math.min] of two numbers. *)
Definition Math_max (a b : Q) : Q := if Qle_bool a b then b else a.
Definition Math_min (a b : Q) : Q := if Qle_bool a b then a else b.

Module ChartPanel.

(** [Candle] of types.ts. *)
Record Candle : Type := mkCandle {
  c_time : Z;
  c_open : Q;
  c_high : Q;
  c_low : Q;
  c_close : Q
}.

(** What [processTick] hands to the chart series. *)
Inductive SeriesUpdate : Type :=
| LineUpdate (time : Z) (value : Q)
| AreaUpdate (time : Z) (value : Q)
| HistogramUpdate (time : Z) (value : Q) (color : string)
| CandleUpdate (cd : Candle).

(** The refs and state of one panel, the market slice it dispatches to, and
    the updates received by the series ([ready] tells whether the four
    series refs are set, which the chart-creating effect does at once). *)
Record Panel : Type := mkPanel {
  priceHistory : list Q;
  lastPrice : Q;
  workingCandle : option Candle;
  currentPrice : Q;
  priceChange : Q;
  market : Market.MarketState;
  ready : bool;
  drawn : list SeriesUpdate
}.

Definition newPanel (m : Market.MarketState) (ready : bool) : Panel :=
  {| priceHistory := []; lastPrice := 0; workingCandle := None;
     currentPrice := 0; priceChange := 0; market := m; ready := ready;
     drawn := [] |}.

(** [ref.current?.update(x)] *)
Definition update (ready : bool) (x : SeriesUpdate) (log : list SeriesUpdate)
    : list SeriesUpdate :=
  if ready then log ++ [x] else log.

(** [a.push(x); if (a.length > 100) a.shift()] *)
Definition push_bounded (a : list Q) (x : Q) : list Q :=
  let a1 := a ++ [x] in
  if (100 <? List.length a1)%nat then tl a1 else a1.

Definition processTick (symbol : SymbolCode) (tick : Tick) (p : Panel)
    : Panel :=
  let market1 := Market.setLastPrice (market p) symbol (tick_price tick) in
  let t := tick_ts tick in
  let history := push_bounded (priceHistory p) (tick_price tick) in
  let previousPrice := lastPrice p in
  let change :=
    if (1 <? List.length history)%nat
    then tick_price tick - hd 0 history
    else priceChange p in
  let d1 := update (ready p) (LineUpdate t (tick_price tick)) (drawn p) in
  let d2 := update (ready p) (AreaUpdate t (tick_price tick)) d1 in
  let isUp := Qle_bool previousPrice (tick_price tick) in
  let d3 :=
    update (ready p)
      (HistogramUpdate t (Qabs (tick_price tick * 1000))
                       (if isUp then "#10b981" else "#ef4444")%string) d2 in
  let fresh := mkCandle t (tick_price tick) (tick_price tick)
                        (tick_price tick) (tick_price tick) in
  let '(wc', d4) :=
    match workingCandle p with
    | None => (fresh, d3)
    | Some wc =>
        if negb (c_time wc =? t)%Z
        then (fresh, update (ready p) (CandleUpdate wc) d3)
        else (mkCandle (c_time wc) (c_open wc)
                       (Math_max (c_high wc) (tick_price tick))
                       (Math_min (c_low wc) (tick_price tick))
                       (tick_price tick), d3)
    end in
  {| priceHistory := history;
     lastPrice := tick_price tick;
     workingCandle := Some wc';
     currentPrice := tick_price tick;
     priceChange := change;
     market := market1;
     ready := ready p;
     drawn := d4 |}.

Definition processTicks (symbol : SymbolCode) (ticks : list Tick) (p : Panel)
    : Panel :=
  fold_left (fun acc tick => processTick symbol tick acc) ticks p.



(** The prices of the last [n] ticks, oldest first. *)
Definition recent (n : nat) (ticks : list Tick) : list Q :=
  skipn (List.length ticks - n) (map tick_price ticks).

End ChartPanel.

(** ** components/LargeChart.tsx: [calculateSMA] *)

Module LargeChart.

(** [prices.slice(-n)]: the last [n] elements; all of them when [n] is 0
    or exceeds the length. *)
Definition slice_last (n : nat) (prices : list Q) : list Q :=
  match n with
  | O => prices
  | _ => skipn (List.length prices - n) prices
  end.

Definition calculateSMA (prices : list Q) (period : nat) : Q :=
  if (List.length prices <? period)%nat then 0
  else
    let sum := fold_left Qplus (slice_last period prices) 0 in
    sum / inject_Z (Z.of_nat period).

End LargeChart.

(** ** components/ConnectionStatus.tsx *)

Module StatusView.

Definition getStatusColor (status : Feed.ConnectionStatus) : string :=
  if Feed.st_isConnected status && Feed.st_usingWebSocket status
  then "var(--pos)"
  else if Feed.st_usingWebSocket status && negb (Feed.st_isConnected status)
  then "var(--neg)"
  else "var(--muted)".

Definition getStatusText (status : Feed.ConnectionStatus) : string :=
  if Feed.st_isConnected status && Feed.st_usingWebSocket status
  then "Live Data"
  else if Feed.st_usingWebSocket status && negb (Feed.st_isConnected status)
  then "Connecting..."
  else "Simulated".

(** Whether the "(Attempt n)" note is rendered. *)
Definition showsAttempt (status : Feed.ConnectionStatus) : bool :=
  Feed.st_usingWebSocket status && negb (Feed.st_isConnected status)
  && (0 <? Feed.st_reconnectAttempts status)%Z.

End StatusView.

(** ** components/Tabs.tsx *)

Module Tabs.

Section Content.
Variable ReactNode : Type.

Record Tab : Type := mkTab {
  tab_id : string;
  tab_label : string;
  tab_content : ReactNode
}.

(** [useState(defaultTab || tabs[0]?.id)] *)
Definition initialTab (tabs : list Tab) (defaultTab : option string)
    : option string :=
  match defaultTab with
  | Some d => if Feed.truthy d then Some d else option_map tab_id (hd_error tabs)
  | None => option_map tab_id (hd_error tabs)
  end.

(** [tabs.find(tab => tab.id === activeTab)?.content] *)
Definition activeTabContent (tabs : list Tab) (activeTab : option string)
    : option ReactNode :=
  match activeTab with
  | None => None
  | Some a =>
      option_map tab_content (find (fun tab => String.eqb (tab_id tab) a) tabs)
  end.

End Content.

Arguments mkTab {ReactNode}.
Arguments tab_id {ReactNode}.
Arguments tab_label {ReactNode}.
Arguments tab_content {ReactNode}.
Arguments initialTab {ReactNode}.
Arguments activeTabContent {ReactNode}.

End Tabs.

(** ** Sums over a sequence of orders, and ledger invariants *)

Module LedgerSums.
Import Ledger.

(** The signed quantity ordered in [s]. *)
Definition ordered (s : SymbolCode) (d : Dispatch) : Q :=
  if SymbolCode_eqb (o_symbol (d_order d)) s then o_qty (d_order d) else 0.

Definition netOrdered (s : SymbolCode) (ds : list Dispatch) : Q :=
  fold_right (fun d acc => ordered s d + acc) 0 ds.

(** The sum of the magnitudes ordered in [s]. *)
Definition netMagnitude (s : SymbolCode) (ds : list Dispatch) : Q :=
  fold_right (fun d acc => Qabs (ordered s d) + acc) 0 ds.

(** A whole number. *)
Definition integral (x : Q) : Prop := exists z : Z, x == inject_Z z.

(** 2^53: whole numbers up to this magnitude are added without rounding
    by the double-precision arithmetic of the source. *)
Definition exact_limit : Q := 9007199254740992.

Definition preparedTrade (d : Dispatch) : Trade :=
  prepare (d_nanoid d) (d_now d) (d_order d).

(** Every stored position sits in the slot of its own symbol and has a
    positive average price. *)
Definition sound (st : PortfolioState) : Prop :=
  forall s p, get (positions st) s = Some p ->
              pos_symbol p = s /\ 0 < pos_avgPrice p.

(** [trades.slice(0, 20)] of Portfolio.tsx. *)
Definition recentTrades (st : PortfolioState) : list Trade :=
  firstn 20 (trades st).

End LedgerSums.

(** ** Projections of the feed's state used by the invariants *)

Module FeedViews.
Import Feed.

(** The generator's timer as the feed and as the page see it. *)
Definition one_timer (w : World) : Prop :=
  intervals (browser w)
  = match timer (feed w) with
    | Some h => [(h, TICK_MS)]
    | None => []
    end.

Definition generator_view (w : World) : option nat * list (nat * Z) :=
  (timer (feed w), intervals (browser w)).

(** Everything but the stored prices and the record of callback calls. *)
Definition connection_view (w : World) :=
  (subs (feed w), timer (feed w), ws (feed w), usingWs (feed w),
   reconnectAttempts (feed w), isConnected (feed w),
   (vite_env (browser w), next_handle (browser w), intervals (browser w),
    timeouts (browser w), sockets (browser w), sent (browser w))).

Definition is_start (e : Event) : bool :=
  match e with Start _ => true | _ => false end.

(** The callbacks a delivery calls: those up to and including the first
    one that throws on the tick. *)
Fixpoint upto_first_throw (tick : Tick) (cbs : list Subscriber)
    : list Subscriber :=
  match cbs with
  | [] => []
  | cb :: rest =>
      cb :: (if cb_throws cb tick then [] else upto_first_throw tick rest)
  end.

(** The datum's key is none the table has, of its own or inherited: the
    [if (!s) return] of the listener skips it. *)
Definition unknown_symbol (d : TradeDatum) : Prop :=
  lookupFromFinnhub (d_s d) = Undefined.

End FeedViews.

(** * Facts *)

Lemma Forall_firstn_keeps {A} (P : A -> Prop) (l : list A) :
  Forall P l -> forall n, Forall P (firstn n l).
Proof.
  induction 1 as [|x l Hx Hl IH]; intros [|n]; simpl; constructor; auto.
Qed.

Lemma SymbolCode_eqb_spec (a b : SymbolCode) :
  reflect (a = b) (SymbolCode_eqb a b).
Proof. destruct a, b; constructor; congruence. Qed.

Lemma get_set_same {A} (r : PerSymbol A) s v : get (set r s v) s = v.
Proof. destruct s; reflexivity. Qed.

Lemma get_set_other {A} (r : PerSymbol A) s s' v :
  s' <> s -> get (set r s v) s' = get r s'.
Proof. destruct s, s'; simpl; congruence. Qed.

Lemma Math_sign_pos x : Math_sign x = 1%Z <-> 0 < x.
Proof.
  unfold Math_sign, Qlt; simpl. rewrite Z.mul_1_r.
  destruct (Qnum x); simpl; split; intro; try lia; discriminate.
Qed.

Lemma Math_sign_neg x : Math_sign x = (-1)%Z <-> x < 0.
Proof.
  unfold Math_sign, Qlt; simpl. rewrite Z.mul_1_r.
  destruct (Qnum x); simpl; split; intro; try lia; discriminate.
Qed.

Lemma Math_sign_zero x : Math_sign x = 0%Z <-> x == 0.
Proof.
  unfold Math_sign, Qeq; simpl. rewrite Z.mul_1_r.
  destruct (Qnum x); simpl; split; intro; try lia; discriminate.
Qed.

Lemma Math_sign_cases x :
  (Math_sign x = 1%Z /\ 0 < x) \/ (Math_sign x = (-1)%Z /\ x < 0)
  \/ (Math_sign x = 0%Z /\ x == 0).
Proof.
  destruct (Z.sgn (Qnum x)) eqn:E; fold (Math_sign x) in E.
  - right; right. split; [assumption | now apply Math_sign_zero].
  - left. assert (p = 1%positive) as ->.
    { unfold Math_sign in E. destruct (Qnum x); simpl in E; congruence. }
    split; [assumption | now apply Math_sign_pos].
  - right; left. assert (p = 1%positive) as ->.
    { unfold Math_sign in E. destruct (Qnum x); simpl in E; congruence. }
    split; [assumption | now apply Math_sign_neg].
Qed.

Lemma Math_sign_same a b :
  Math_sign a = Math_sign b <-> LedgerSpec.same_sign a b.
Proof.
  unfold LedgerSpec.same_sign. split.
  - intro E.
    destruct (Math_sign_cases a) as [[Ha Pa]|[[Ha Pa]|[Ha Pa]]];
      rewrite Ha in E; symmetry in E.
    + left. split; [assumption | now apply Math_sign_pos].
    + right; left. split; [assumption | now apply Math_sign_neg].
    + right; right. split; [assumption | now apply Math_sign_zero].
  - intros [[Ha Hb]|[[Ha Hb]|[Ha Hb]]].
    + apply Math_sign_pos in Ha, Hb. congruence.
    + apply Math_sign_neg in Ha, Hb. congruence.
    + apply Math_sign_zero in Ha, Hb. congruence.
Qed.

Module LedgerFacts.
Import Ledger LedgerSpec.

(** The signed quantity [trade.qty * sign] the reducer rebuilds from the
    prepared trade is the quantity that was ordered. *)
Lemma signed_qty nanoid now o :
  let t := prepare nanoid now o in
  trade_qty t * (match trade_side t with BUY => 1 | SELL => -(1) end)
  == o_qty o.
Proof.
  unfold prepare; simpl.
  destruct (Qle_bool 0 (o_qty o)) eqn:E.
  - apply Qle_bool_iff in E. rewrite Qabs_pos by assumption. ring.
  - assert (o_qty o < 0) as L.
    { apply Qnot_le_lt. intro H. apply Qle_bool_iff in H. congruence. }
    rewrite Qabs_neg by (apply Qlt_le_weak; assumption). ring.
Qed.

Lemma placeOrder_cash st nanoid now o :
  cash (placeOrder st nanoid now o) == cash st - o_price o * o_qty o.
Proof.
  unfold placeOrder, reducer. cbn [cash].
  rewrite <- (signed_qty nanoid now o). cbn zeta.
  change (trade_price (prepare nanoid now o)) with (o_price o). ring.
Qed.

Lemma placeOrder_other st nanoid now o s :
  s <> o_symbol o ->
  get (positions (placeOrder st nanoid now o)) s = get (positions st) s.
Proof.
  intro Hs. unfold placeOrder, reducer. cbn [positions].
  change (trade_symbol (prepare nanoid now o)) with (o_symbol o).
  destruct (get (positions st) (o_symbol o)) as [ex|].
  - destruct (Qeq_bool _ 0); [|destruct (Z.eqb _ _)];
      now apply get_set_other.
  - now apply get_set_other.
Qed.

Lemma Math_sign_Qeq a b : a == b -> Math_sign a = Math_sign b.
Proof.
  intro E. apply Math_sign_same. unfold same_sign.
  destruct (Math_sign_cases a) as [[_ P]|[[_ P]|[_ P]]].
  - left. split; [assumption | now rewrite <- E].
  - right; left. split; [assumption | now rewrite <- E].
  - right; right. split; [assumption | now rewrite <- E].
Qed.

Lemma Qabs_nonzero q : ~ q == 0 -> 0 < Qabs q.
Proof.
  intro H. apply Qabs_case; intro L.
  - apply Qle_lt_or_eq in L. destruct L as [L|L]; [assumption|].
    exfalso. apply H. symmetry. assumption.
  - apply Qle_lt_or_eq in L. destruct L as [L|L]; [lra|].
    exfalso. apply H. assumption.
Qed.

(** The three outcomes of the reducer on a slot that holds a position. *)
Lemma reducer_existing st t ex :
  get (positions st) (trade_symbol t) = Some ex ->
  let q := trade_qty t * (match trade_side t with BUY => 1 | SELL => -(1) end) in
  let newQty := pos_qty ex + q in
  get (positions (reducer st t)) (trade_symbol t) =
    if Qeq_bool newQty 0 then None
    else if (Math_sign (pos_qty ex) =? Math_sign newQty)%Z then
      Some {| pos_symbol := pos_symbol ex; pos_qty := newQty;
              pos_avgPrice :=
                (pos_avgPrice ex * Qabs (pos_qty ex) + trade_price t * Qabs q)
                / (Qabs (pos_qty ex) + Qabs q) |}
    else
      Some {| pos_symbol := pos_symbol ex; pos_qty := newQty;
              pos_avgPrice := trade_price t |}.
Proof.
  intros E q newQty. unfold reducer. cbn [positions]. rewrite E.
  fold q. fold newQty.
  destruct (Qeq_bool newQty 0); [now rewrite get_set_same|].
  destruct (Math_sign (pos_qty ex) =? Math_sign newQty)%Z eqn:S.
  - now rewrite get_set_same.
  - rewrite get_set_same. rewrite Z.eqb_sym, S. reflexivity.
Qed.

Lemma reducer_absent st t :
  get (positions st) (trade_symbol t) = None ->
  get (positions (reducer st t)) (trade_symbol t) =
    Some {| pos_symbol := trade_symbol t;
            pos_qty := trade_qty t
                       * (match trade_side t with BUY => 1 | SELL => -(1) end);
            pos_avgPrice := trade_price t |}.
Proof.
  intro E. unfold reducer. cbn [positions]. rewrite E.
  now rewrite get_set_same.
Qed.

(** C3. An order with a positive price and a non-zero signed quantity lowers
    the cash by [price * signedQuantity]; with no prior position, or when
    [newQty = prevQty + signedQuantity] has the sign of [prevQty], the
    position becomes [newQty] at the blended average
    [(prevAvg*|prevQty| + price*|signedQuantity|) / (|prevQty| + |signedQuantity|)];
    when the quantity crosses zero to the other sign the position becomes
    [newQty] at the order's price. *)
Theorem placeOrder_follows_update_rule st nanoid now o :
  0 < o_price o -> ~ o_qty o == 0 ->
  let st' := placeOrder st nanoid now o in
  cash st' == cash st - o_price o * o_qty o
  /\ match get (positions st) (o_symbol o) with
     | None =>
         forall prevAvg,
           position_is st' (o_symbol o) (0 + o_qty o)
                       (blend prevAvg 0 (o_price o) (o_qty o))
     | Some ex =>
         let prevQty := pos_qty ex in
         let prevAvg := pos_avgPrice ex in
         let newQty := prevQty + o_qty o in
         (same_sign newQty prevQty ->
          position_is st' (o_symbol o) newQty
                      (blend prevAvg prevQty (o_price o) (o_qty o)))
         /\ (flips prevQty newQty ->
             position_is st' (o_symbol o) newQty (o_price o))
     end.
Proof.
  intros Hp Hq st'. split; [apply placeOrder_cash|].
  pose proof (signed_qty nanoid now o) as Sq. cbn zeta in Sq.
  pose proof (Qabs_nonzero _ Hq) as Habs.
  subst st'. unfold placeOrder.
  set (t := prepare nanoid now o) in *.
  change (o_symbol o) with (trade_symbol t).
  change (o_price o) with (trade_price t).
  destruct (get (positions st) (trade_symbol t)) as [ex|] eqn:E.
  - pose proof (reducer_existing st t ex E) as R. cbn zeta in R.
    set (q := trade_qty t * _) in *.
    assert (pos_qty ex + q == pos_qty ex + o_qty o) as En by (rewrite Sq; reflexivity).
    cbn zeta. split.
    + intro Same.
      assert (~ pos_qty ex + q == 0) as Nz.
      { intro Z0. rewrite En in Z0.
        destruct Same as [[A B]|[[A B]|[A B]]]; lra. }
      destruct (Qeq_bool (pos_qty ex + q) 0) eqn:Z0;
        [apply Qeq_bool_iff in Z0; contradiction|].
      apply Math_sign_same in Same.
      rewrite <- (Math_sign_Qeq _ _ En) in Same.
      rewrite <- Same, Z.eqb_refl in R.
      eexists. split; [exact R|]. cbn [pos_qty pos_avgPrice]. split.
      * exact En.
      * unfold blend. rewrite Sq. reflexivity.
    + intro Fl.
      assert (~ pos_qty ex + q == 0) as Nz.
      { intro Z0. rewrite En in Z0. destruct Fl as [[A B]|[A B]]; lra. }
      destruct (Qeq_bool (pos_qty ex + q) 0) eqn:Z0;
        [apply Qeq_bool_iff in Z0; contradiction|].
      destruct (Math_sign (pos_qty ex) =? Math_sign (pos_qty ex + q))%Z eqn:S.
      * exfalso. apply Z.eqb_eq in S.
        rewrite (Math_sign_Qeq _ _ En) in S. apply Math_sign_same in S.
        destruct Fl as [[A B]|[A B]];
          destruct S as [[C D]|[[C D]|[C D]]]; lra.
      * eexists. split; [exact R|]. cbn [pos_qty pos_avgPrice].
        split; [exact En | reflexivity].
  - intro prevAvg. pose proof (reducer_absent st t E) as R.
    eexists. split; [exact R|]. cbn [pos_qty pos_avgPrice]. split.
    + rewrite Sq. ring.
    + unfold blend. change (Qabs 0) with 0. field. lra.
Qed.

Lemma placeOrder_follows_update_rule_witness :
  let st := placeOrder initialState "t1" 0 (mkOrder EURUSD 1000 (108 # 100)) in
  let o := mkOrder EURUSD (-1500) (109 # 100) in
  let st' := placeOrder st "t2" 0 o in
  cash st' == cash st - o_price o * o_qty o
  /\ position_is st' EURUSD (1000 + o_qty o) (o_price o).
Proof.
  intros st o st'.
  assert (0 < o_price o) as Hp by reflexivity.
  assert (~ o_qty o == 0) as Hq by (intro H; discriminate H).
  assert (flips 1000 (1000 + o_qty o)) as Fl
    by (left; split; reflexivity).
  destruct (placeOrder_follows_update_rule st "t2" 0%Z o Hp Hq)
    as (Hc & _ & Hf).
  split; [exact Hc | exact (Hf Fl)].
Defined.

(** C10. One call of [placeOrder] puts exactly one trade, the prepared one,
    in front of the trade log and leaves the rest of the log as it was,
    leaves the position of every other symbol unchanged, and so changes
    nothing but the cash, the order's own position and the log. *)
Theorem placeOrder_frame st nanoid now o :
  let st' := placeOrder st nanoid now o in
  trades st' = prepare nanoid now o :: trades st
  /\ List.length (trades st') = S (List.length (trades st))
  /\ (forall s, s <> o_symbol o ->
        get (positions st') s = get (positions st) s).
Proof.
  intro st'. split; [reflexivity|]. split; [reflexivity|].
  intros s Hs. now apply placeOrder_other.
Qed.

Lemma placeOrder_frame_witness :
  let st := placeOrder initialState "t1" 0 (mkOrder GBPUSD 500 (127 # 100)) in
  let o := mkOrder EURUSD (-1500) (109 # 100) in
  let st' := placeOrder st "t2" 2500 o in
  trades st' = [mkTrade "t2" EURUSD 1500 (109 # 100) 2 SELL;
                mkTrade "t1" GBPUSD 500 (127 # 100) 0 BUY]
  /\ get (positions st') GBPUSD = get (positions st) GBPUSD.
Proof.
  intros st o st'.
  destruct (placeOrder_frame st "t2" 2500%Z o) as (Ht & _ & Hf).
  split.
  - exact Ht.
  - apply Hf. discriminate.
Defined.

Lemma dispatch_no_zero_entry st d :
  ~ o_qty (d_order d) == 0 -> no_zero_entry st -> no_zero_entry (dispatch st d).
Proof.
  intros Hq Inv s p. unfold dispatch.
  destruct (SymbolCode_eqb_spec s (o_symbol (d_order d))) as [->|Ne].
  - unfold placeOrder.
    pose proof (signed_qty (d_nanoid d) (d_now d) (d_order d)) as Sq.
    cbn zeta in Sq.
    set (t := prepare (d_nanoid d) (d_now d) (d_order d)) in *.
    change (o_symbol (d_order d)) with (trade_symbol t).
    destruct (get (positions st) (trade_symbol t)) as [ex|] eqn:E.
    + rewrite (reducer_existing st t ex E). cbn zeta.
      destruct (Qeq_bool _ 0) eqn:Z0; [discriminate|].
      assert (forall x, Qeq_bool x 0 = false -> ~ x == 0) as NZ.
      { intros x F H. apply Qeq_bool_iff in H. congruence. }
      destruct (Z.eqb _ _); intro H; injection H as <-; cbn [pos_qty];
        now apply NZ.
    + rewrite (reducer_absent st t E). intro H; injection H as <-.
      cbn [pos_qty]. intro H0. apply Hq. rewrite <- Sq. exact H0.
  - rewrite placeOrder_other by assumption. apply Inv.
Qed.

Lemma dispatchAll_no_zero_entry ds : forall st,
  Forall (fun d => ~ o_qty (d_order d) == 0) ds ->
  no_zero_entry st -> no_zero_entry (dispatchAll st ds).
Proof.
  induction ds as [|d ds IH]; intros st F Inv; [exact Inv|].
  inversion F as [|? ? Hd Hds]; subst. simpl.
  apply IH; [assumption|]. now apply dispatch_no_zero_entry.
Qed.

Lemma no_zero_entry_iff st s :
  no_zero_entry st -> (hasEntry st s = true <-> ~ quantity st s == 0).
Proof.
  intro Inv. unfold hasEntry, quantity.
  destruct (get (positions st) s) as [p|] eqn:E.
  - split; [intros _; now apply (Inv s) | reflexivity].
  - split; [discriminate | intro H; exfalso; apply H; reflexivity].
Qed.

(** C2, as amended. Starting from the initial ledger, after each order of
    any sequence of orders whose signed quantities are all non-zero, a
    position entry exists for an instrument exactly when the quantity held
    in it is not 0; an order that brings an existing position to exactly 0
    removes the entry. *)
Theorem entry_iff_quantity_nonzero ds :
  Forall (fun d => ~ o_qty (d_order d) == 0) ds ->
  forall n s,
    let st := dispatchAll initialState (firstn n ds) in
    (hasEntry st s = true <-> ~ quantity st s == 0)
    /\ forall d, ~ o_qty (d_order d) == 0 ->
         quantity st (o_symbol (d_order d)) + o_qty (d_order d) == 0 ->
         hasEntry (dispatch st d) (o_symbol (d_order d)) = false.
Proof.
  intros F n s st.
  assert (no_zero_entry st) as Inv.
  { apply dispatchAll_no_zero_entry.
    - now apply Forall_firstn_keeps.
    - intros s' p E. destruct s'; discriminate E. }
  split; [now apply no_zero_entry_iff|].
  intros d Hq Z0. unfold hasEntry, dispatch, placeOrder, quantity in *.
  pose proof (signed_qty (d_nanoid d) (d_now d) (d_order d)) as Sq.
  cbn zeta in Sq.
  set (t := prepare (d_nanoid d) (d_now d) (d_order d)) in *.
  change (o_symbol (d_order d)) with (trade_symbol t) in *.
  destruct (get (positions st) (trade_symbol t)) as [ex|] eqn:E.
  - rewrite (reducer_existing st t ex E). cbn zeta.
    rewrite Sq. apply Qeq_bool_iff in Z0. now rewrite Z0.
  - exfalso. apply Hq. rewrite <- Z0. ring.
Qed.

Lemma entry_iff_quantity_nonzero_witness :
  let buy := mkDispatch "t1" 0 (mkOrder EURUSD 1000 (108 # 100)) in
  let sell := mkDispatch "t2" 0 (mkOrder EURUSD (-1000) (1085 # 1000)) in
  let st1 := dispatchAll initialState (firstn 1 [buy; sell]) in
  Forall (fun d => ~ o_qty (d_order d) == 0) [buy; sell]
  /\ (hasEntry st1 EURUSD = true <-> ~ quantity st1 EURUSD == 0)
  /\ hasEntry (dispatch st1 sell) EURUSD = false.
Proof.
  intros buy sell st1.
  assert (Forall (fun d => ~ o_qty (d_order d) == 0) [buy; sell]) as F.
  { repeat constructor; intro H; discriminate H. }
  assert (~ o_qty (d_order sell) == 0) as Hq by (intro H; discriminate H).
  assert (quantity st1 (o_symbol (d_order sell)) + o_qty (d_order sell) == 0)
    as Z0 by reflexivity.
  destruct (entry_iff_quantity_nonzero [buy; sell] F 1%nat EURUSD)
    as (Iff & Removes).
  split; [exact F|]. split; [exact Iff|].
  exact (Removes sell Hq Z0).
Defined.

(** C2 as stated fails: an order of quantity 0 on an instrument without a
    position is executed and stores an entry whose quantity is 0. *)
Lemma zero_quantity_order_stores_entry :
  let st := dispatchAll initialState
              [mkDispatch "t1" 0 (mkOrder EURUSD 0 (10850 # 10000))] in
  hasEntry st EURUSD = true
  /\ quantity st EURUSD == 0
  /\ ~ (hasEntry st EURUSD = true <-> ~ quantity st EURUSD == 0).
Proof.
  cbv zeta. split; [reflexivity|]. split; [reflexivity|].
  intros [H _]. apply H; reflexivity.
Qed.

(** C1 as stated fails: [placeOrder] has no rejecting path.  With a price
    of -1, and with a quantity of 0, the call changes the ledger. *)
Lemma placeOrder_accepts_invalid_orders :
  let bad_price := mkOrder EURUSD 1000 (-1) in
  let zero_qty := mkOrder EURUSD 0 (10850 # 10000) in
  (o_price bad_price <= 0
   /\ placeOrder initialState "id" 0 bad_price <> initialState
   /\ cash (placeOrder initialState "id" 0 bad_price) == 101000
   /\ trades (placeOrder initialState "id" 0 bad_price)
      = [mkTrade "id" EURUSD 1000 (-1) 0 BUY])
  /\ (Qabs (o_qty zero_qty) == 0
      /\ placeOrder initialState "id" 0 zero_qty <> initialState
      /\ trades (placeOrder initialState "id" 0 zero_qty)
         = [mkTrade "id" EURUSD 0 (10850 # 10000) 0 BUY]
      /\ hasEntry (placeOrder initialState "id" 0 zero_qty) EURUSD = true).
Proof.
  cbv zeta. repeat split; try reflexivity; discriminate.
Qed.

End LedgerFacts.

Module PortfolioFacts.
Import Ledger LedgerSpec Portfolio.

(** C1, as amended. The order entry [handleTrade] drops an order for an
    instrument whose last price is unknown or not positive: [placeOrder]
    is not dispatched and the cash, the positions and the trade log stay
    as they were. *)
Theorem handleTrade_drops_unpriced_order side form last st nanoid now :
  no_price (get last (form_symbol form)) ->
  handleTrade side form last st nanoid now = st.
Proof.
  intro H. unfold handleTrade.
  destruct (Qlt_le_dec 0 (orZero (get last (form_symbol form)))) as [L|L];
    [|reflexivity].
  exfalso. destruct (get last (form_symbol form)) as [p|]; simpl in *.
  - apply (Qlt_irrefl 0). eapply Qlt_le_trans; eassumption.
  - apply (Qlt_irrefl 0). exact L.
Qed.

Lemma handleTrade_drops_unpriced_order_witness :
  let last := mkPerSymbol (Some 0) None (Some 2350) in
  no_price (get last EURUSD)
  /\ handleTrade SELL (mkForm EURUSD 1000) last initialState "id" 0
     = initialState.
Proof.
  intro last.
  assert (no_price (get last EURUSD)) as H by (simpl; discriminate).
  split; [exact H|].
  exact (handleTrade_drops_unpriced_order SELL (mkForm EURUSD 1000) last
           initialState "id" 0%Z H).
Defined.

Lemma fold_three {A} (f : A -> SymbolCode -> A) a :
  fold_left f SYMBOL_KEYS a = f (f (f a EURUSD) GBPUSD) XAUUSD.
Proof. reflexivity. Qed.

Lemma held_pnl positions last s total :
  match get positions s with
  | None => total
  | Some position =>
      match get last s with
      | None => total
      | Some lastPrice =>
          total + rowPnl (pos_qty position) (pos_avgPrice position)
                         (Some lastPrice)
      end
  end == total + spec_held spec_unrealizedPnl 0 positions last s.
Proof.
  unfold spec_held, spec_unrealizedPnl, rowPnl.
  destruct (get positions s) as [p|]; [destruct (get last s)|]; ring.
Qed.

Lemma held_value positions last s :
  match get positions s with
  | Some p => pos_qty p * orZero (get last s)
  | None => 0
  end == spec_marketValue (get positions s) (get last s).
Proof.
  unfold spec_marketValue, orZero.
  destruct (get positions s) as [p|]; [destruct (get last s)|];
    try reflexivity; ring.
Qed.

(** C9. The valuation is a function of the cash, the positions and the
    last-price map alone: [rowPnl] is [(lastPrice - averagePrice) * quantity]
    and 0 without a last price; the equity is the cash plus
    [quantity * lastPrice] over the held positions, a position without a
    last price counting 0; [dayChangePercent] is [(totalPnl / equity) * 100]
    when the equity is positive and 0 otherwise, [totalPnl] being the sum of
    the unrealized P&L of the held positions. *)
Theorem portfolioMetrics_meets_valuation_formulas cash positions last :
  (forall p l,
     rowPnl (pos_qty p) (pos_avgPrice p) l = spec_unrealizedPnl p l)
  /\ (forall p, rowPnl (pos_qty p) (pos_avgPrice p) None = 0)
  /\ (forall p l, rowPnl (pos_qty p) (pos_avgPrice p) (Some l)
                  = (l - pos_avgPrice p) * pos_qty p)
  /\ totalPnl (portfolioMetrics cash positions last)
     == spec_totalPnl positions last
  /\ equity (portfolioMetrics cash positions last)
     == spec_equity cash positions last
  /\ dayChangePercent (portfolioMetrics cash positions last)
     = spec_dayChangePercent
         (totalPnl (portfolioMetrics cash positions last))
         (equity (portfolioMetrics cash positions last)).
Proof.
  split; [intros p [l|]; reflexivity|].
  split; [reflexivity|]. split; [reflexivity|].
  split; [|split].
  - unfold portfolioMetrics, calculateTotalPnl, spec_totalPnl.
    cbn [totalPnl]. rewrite fold_three.
    rewrite (held_pnl positions last XAUUSD).
    rewrite (held_pnl positions last GBPUSD).
    rewrite (held_pnl positions last EURUSD). ring.
  - unfold portfolioMetrics, spec_equity. cbn [equity].
    change [EURUSD; GBPUSD; XAUUSD] with SYMBOL_KEYS. rewrite fold_three.
    rewrite !held_value. ring.
  - reflexivity.
Qed.

End PortfolioFacts.

Module FeedFacts.
Import Feed FeedSpec.

Lemma FINNHUB_KEY_truthy vite : truthy (FINNHUB_KEY vite) = true.
Proof.
  unfold FINNHUB_KEY. destruct vite as [k|]; [|reflexivity].
  destruct (truthy k) eqn:E; [assumption | reflexivity].
Qed.

(** The key is never empty, so [start] depends on [this.ws] alone. *)
Lemma start_key c w :
  start c w =
  match ws (feed w) with
  | None =>
      match initWs c w with
      | (w1, Normal) => with_feed w1 (set_usingWs true)
      | (w1, Thrown) => startSim w1
      end
  | Some _ => startSim w
  end.
Proof.
  unfold start. rewrite FINNHUB_KEY_truthy.
  destruct (ws (feed w)); reflexivity.
Qed.

(** *** What a loop over callbacks leaves unchanged *)

Lemma forEach_keeps {A B} (proj : World -> B)
    (f : A -> World -> World * Completion) (xs : list A) :
  (forall x w, proj (fst (f x w)) = proj w) ->
  forall w, proj (fst (forEach f xs w)) = proj w.
Proof.
  intro Hf. induction xs as [|x xs IH]; intro w; [reflexivity|].
  simpl. specialize (Hf x w). destruct (f x w) as [w' [|]]; simpl in *.
  - rewrite IH. exact Hf.
  - exact Hf.
Qed.

Lemma deliver_keeps {B} (proj : World -> B) tick :
  (forall w id, proj (with_browser w (log_call id tick)) = proj w) ->
  forall w, proj (fst (deliver tick w)) = proj w.
Proof.
  intros H w. unfold deliver. apply forEach_keeps.
  intros cb w'. apply H.
Qed.

(** The calls a loop over [cbs] makes: every subscriber up to and
    including the first that throws. *)
Lemma forEach_call_quiet tick cbs : forall w,
  Forall (fun cb => cb_throws cb tick = false) cbs ->
  forEach (call tick) cbs w
  = ({| feed := feed w;
        browser := fold_left (fun b cb => log_call (cb_id cb) tick b) cbs
                             (browser w) |}, Normal).
Proof.
  induction cbs as [|cb cbs IH]; intros w F.
  - destruct w; reflexivity.
  - inversion F as [|? ? Hcb Hcbs]; subst. simpl.
    unfold call at 1. rewrite Hcb. rewrite IH by assumption. reflexivity.
Qed.

Lemma fold_log_call_calls tick cbs : forall b,
  calls (fold_left (fun b cb => log_call (cb_id cb) tick b) cbs b)
  = calls b ++ invoked_with tick cbs.
Proof.
  induction cbs as [|cb cbs IH]; intro b; simpl.
  - now rewrite app_nil_r.
  - rewrite IH. simpl. now rewrite <- app_assoc.
Qed.

(** When no callback throws, every registered callback receives the tick,
    in registration order. *)
Lemma deliver_reaches_all tick w :
  Forall (fun cb => cb_throws cb tick = false)
         (get (subs (feed w)) (tick_symbol tick)) ->
  snd (deliver tick w) = Normal
  /\ feed (fst (deliver tick w)) = feed w
  /\ calls (browser (fst (deliver tick w)))
     = calls (browser w)
       ++ invoked_with tick (get (subs (feed w)) (tick_symbol tick)).
Proof.
  intro F. unfold deliver. rewrite forEach_call_quiet by assumption.
  simpl. repeat split. apply fold_log_call_calls.
Qed.

Lemma forEach_call_throw tick pre c post w :
  Forall (fun cb => cb_throws cb tick = false) pre ->
  cb_throws c tick = true ->
  let r := forEach (call tick) (pre ++ c :: post) w in
  snd r = Thrown
  /\ feed (fst r) = feed w
  /\ calls (browser (fst r))
     = calls (browser w) ++ invoked_with tick (pre ++ [c]).
Proof.
  revert w. induction pre as [|cb pre IH]; intros w F Hc.
  - simpl. unfold call. rewrite Hc. simpl. repeat split; reflexivity.
  - inversion F as [|? ? Hcb Hpre]; subst. simpl.
    unfold call at 1. rewrite Hcb.
    specialize (IH (with_browser w (log_call (cb_id cb) tick)) Hpre Hc).
    destruct IH as (R & Fd & Cs). repeat split.
    + exact R.
    + rewrite Fd. reflexivity.
    + rewrite Cs. simpl. now rewrite <- app_assoc.
Qed.

(** C4, as amended. When a callback throws during the delivery of a tick,
    the callbacks registered before it have been invoked with that tick in
    registration order, the delivery ends with the exception, and no
    callback registered after the failing one is invoked with the tick. *)
Theorem throwing_callback_ends_delivery tick pre c post w :
  get (subs (feed w)) (tick_symbol tick) = pre ++ c :: post ->
  Forall (fun cb => cb_throws cb tick = false) pre ->
  cb_throws c tick = true ->
  snd (deliver tick w) = Thrown
  /\ feed (fst (deliver tick w)) = feed w
  /\ calls (browser (fst (deliver tick w)))
     = calls (browser w) ++ invoked_with tick (pre ++ [c]).
Proof.
  intros E F Hc. unfold deliver. rewrite E.
  now apply forEach_call_throw.
Qed.

Lemma throwing_callback_ends_delivery_witness :
  let w := run (newWorld None)
             [Subscribe EURUSD (quiet 1) 0; Subscribe EURUSD (failing 2) 0;
              Subscribe EURUSD (quiet 3) 0] in
  let tick := mkTick EURUSD (109 # 100) 5 in
  snd (deliver tick w) = Thrown
  /\ feed (fst (deliver tick w)) = feed w
  /\ calls (browser (fst (deliver tick w)))
     = calls (browser w) ++ [(1%nat, tick); (2%nat, tick)].
Proof.
  intros w tick.
  assert (get (subs (feed w)) (tick_symbol tick)
          = [quiet 1] ++ failing 2 :: [quiet 3]) as E by reflexivity.
  assert (Forall (fun cb => cb_throws cb tick = false) [quiet 1]) as F
    by (repeat constructor).
  assert (cb_throws (failing 2) tick = true) as T by reflexivity.
  exact (throwing_callback_ends_delivery tick [quiet 1] (failing 2) [quiet 3]
           w E F T).
Defined.

(** C4 as stated fails, on the live path and in the generator alike: with
    a throwing callback registered first and a second callback registered
    after it, the tick reaches the first callback only. *)
Lemma later_callback_not_invoked :
  let w0 := newWorld None in
  let registered :=
    [Subscribe EURUSD (failing 1) 0; Subscribe EURUSD (quiet 2) 0] in
  let live := registered ++ [Start false; WsOpen 1;
                             WsMessage 1 (eurusd_trade (109 # 100) 5000)] in
  let simulated := registered ++ [Start true; IntervalFires 1 5000 steady] in
  let seed := mkTick EURUSD (10850 # 10000) 0 in
  let live_tick := mkTick EURUSD (109 # 100) 5 in
  let sim_tick := mkTick EURUSD (108500 # 100000) 5 in
  map cb_id (get (subs (feed (run w0 registered))) EURUSD) = [1%nat; 2%nat]
  /\ (feasible w0 live = true
      /\ cb_throws (failing 1) live_tick = true
      /\ calls (browser (run w0 live))
         = [(1%nat, seed); (2%nat, seed); (1%nat, live_tick)]
      /\ ~ In (2%nat, live_tick) (calls (browser (run w0 live))))
  /\ (feasible w0 simulated = true
      /\ cb_throws (failing 1) sim_tick = true
      /\ calls (browser (run w0 simulated))
         = [(1%nat, seed); (2%nat, seed); (1%nat, sim_tick)]
      /\ ~ In (2%nat, sim_tick) (calls (browser (run w0 simulated)))).
Proof.
  cbv zeta. split; [reflexivity|]. split.
  - split; [reflexivity|]. split; [reflexivity|].
    assert (calls (browser (run (newWorld None)
              ([Subscribe EURUSD (failing 1) 0; Subscribe EURUSD (quiet 2) 0]
               ++ [Start false; WsOpen 1;
                   WsMessage 1 (eurusd_trade (109 # 100) 5000)])))
            = [(1%nat, mkTick EURUSD (10850 # 10000) 0);
               (2%nat, mkTick EURUSD (10850 # 10000) 0);
               (1%nat, mkTick EURUSD (109 # 100) 5)]) as E by reflexivity.
    split; [exact E|]. rewrite E.
    intros [H|[H|[H|[]]]]; discriminate H.
  - split; [reflexivity|]. split; [reflexivity|].
    assert (calls (browser (run (newWorld None)
              ([Subscribe EURUSD (failing 1) 0; Subscribe EURUSD (quiet 2) 0]
               ++ [Start true; IntervalFires 1 5000 steady])))
            = [(1%nat, mkTick EURUSD (10850 # 10000) 0);
               (2%nat, mkTick EURUSD (10850 # 10000) 0);
               (1%nat, mkTick EURUSD (108500 # 100000) 5)]) as E
      by (vm_compute; reflexivity).
    split; [exact E|]. rewrite E.
    intros [H|[H|[H|[]]]]; discriminate H.
Qed.

(** C5, evaluated on the code. A reconnect timer armed before [stop()] is
    still pending when [stop()] has returned; when it fires it opens a new
    socket, and the next trade frame is delivered to the subscriber although
    [start()] was not called again.  The same happens after [stop()] on a
    healthy connection, through the close event its own [ws.close()]
    raises. *)
Theorem reconnect_timer_outlives_stop vite :
  let w0 := newWorld vite in
  let live_tick := mkTick EURUSD (109 # 100) 5 in
  let before := [Subscribe EURUSD (quiet 1) 0; Start false; WsError 1; Stop] in
  let after := [TimeoutFires 2 false; WsOpen 3;
                WsMessage 3 (eurusd_trade (109 # 100) 5000)] in
  let before' := [Subscribe EURUSD (quiet 1) 0; Start false; WsOpen 1; Stop] in
  let after' := [WsClose 1; TimeoutFires 2 false; WsOpen 3;
                 WsMessage 3 (eurusd_trade (109 # 100) 5000)] in
  (feasible w0 (before ++ after) = true
   /\ timeouts (browser (run w0 before)) = [(2%nat, 1000%Z)]
   /\ ws (feed (run w0 before)) = None
   /\ ws (feed (run w0 (before ++ after))) = Some 3%nat
   /\ readyState 3 (browser (run w0 (before ++ after))) = Some OPEN
   /\ calls (browser (run w0 (before ++ after)))
      = calls (browser (run w0 before)) ++ [(1%nat, live_tick)])
  /\ (feasible w0 (before' ++ after') = true
      /\ ws (feed (run w0 before')) = None
      /\ readyState 1 (browser (run w0 before')) = Some CLOSING
      /\ ws (feed (run w0 (before' ++ after'))) = Some 3%nat
      /\ readyState 3 (browser (run w0 (before' ++ after'))) = Some OPEN
      /\ calls (browser (run w0 (before' ++ after')))
         = calls (browser (run w0 before')) ++ [(1%nat, live_tick)]).
Proof.
  cbv zeta. unfold run, feasible.
  cbn [app fold_left step enabled handle subscribe fst andb].
  rewrite !start_key. repeat split; reflexivity.
Qed.

(** C6, evaluated on the code. The first [start()] opens the socket and
    starts no timer; a second [start()] finds the socket in place and starts
    the synthetic generator next to it; from then on the subscriber is sent
    the live ticks and the simulated ticks. *)
Theorem second_start_adds_generator vite :
  let w0 := newWorld vite in
  let once := run w0 [Start false] in
  let twice := run w0 [Start false; Start false] in
  let both := [Subscribe EURUSD (quiet 1) 0; Start false; Start false;
               WsOpen 1; WsMessage 1 (eurusd_trade (109 # 100) 5000);
               IntervalFires 2 6000 steady] in
  (ws (feed once) = Some 1%nat /\ timer (feed once) = None
   /\ intervals (browser once) = [])
  /\ (ws (feed twice) = Some 1%nat /\ timer (feed twice) = Some 2%nat
      /\ intervals (browser twice) = [(2%nat, TICK_MS)]
      /\ readyState 1 (browser twice) = Some CONNECTING)
  /\ (feasible w0 both = true
      /\ calls (browser (run w0 both))
         = [(1%nat, mkTick EURUSD (10850 # 10000) 0);
            (1%nat, mkTick EURUSD (109 # 100) 5);
            (1%nat, mkTick EURUSD (109000 # 100000) 6)]).
Proof.
  cbv zeta. unfold run, feasible.
  cbn [fold_left step enabled handle andb].
  rewrite !start_key. repeat split; vm_compute; reflexivity.
Qed.

(** C7 as stated fails: after exactly five transport failures in a row the
    feed has not fallen back.  No generator timer runs, the fifth reconnect
    is pending with a delay of 5000 ms, and when it fires a new socket is
    created without any [start()].  The generator starts with the sixth
    failure. *)
Lemma fifth_failure_still_reconnects :
  let w0 := newWorld None in
  let five := [Start false; WsClose 1; TimeoutFires 2 false;
               WsClose 3; TimeoutFires 4 false;
               WsClose 5; TimeoutFires 6 false;
               WsClose 7; TimeoutFires 8 false;
               WsClose 9] in
  let w5 := run w0 five in
  let w5' := run w0 (five ++ [TimeoutFires 10 false]) in
  let w6 := run w0 (five ++ [TimeoutFires 10 false; WsClose 11]) in
  feasible w0 (five ++ [TimeoutFires 10 false; WsClose 11]) = true
  /\ (reconnectAttempts (feed w5) = maxReconnectAttempts
      /\ timer (feed w5) = None
      /\ intervals (browser w5) = []
      /\ timeouts (browser w5) = [(10%nat, 5000%Z)])
  /\ (ws (feed w5') = Some 11%nat
      /\ readyState 11 (browser w5') = Some CONNECTING)
  /\ (timer (feed w6) = Some 12%nat
      /\ timeouts (browser w6) = []
      /\ st_usingWebSocket (getConnectionStatus w6) = false).
Proof. cbv zeta. repeat split; reflexivity. Qed.

(** *** The reconnect counter and the reconnect timers *)

Lemma startSim_ctl w : ctl (startSim w) = ctl w.
Proof. unfold startSim. destruct (timer (feed w)); reflexivity. Qed.

Lemma initWs_ctl c w : ctl (fst (initWs c w)) = ctl w.
Proof. unfold initWs. destruct c; reflexivity. Qed.

Lemma start_ctl c w : ctl (start c w) = ctl w.
Proof.
  unfold start. destruct (_ && _); [|apply startSim_ctl].
  unfold initWs. destruct c; [apply startSim_ctl | reflexivity].
Qed.

Lemma ws_close_timeouts h b : timeouts (ws_close h b) = timeouts b.
Proof. unfold ws_close. destruct (readyState h b) as [[]|]; reflexivity. Qed.

Lemma cleanupWs_ctl w : ctl (cleanupWs w) = ctl w.
Proof.
  unfold cleanupWs, ctl. destruct (ws (feed w)); simpl;
    rewrite ?ws_close_timeouts; reflexivity.
Qed.

Lemma stop_ctl w : ctl (stop w) = ctl w.
Proof.
  unfold stop.
  destruct (timer (feed w)); simpl;
    destruct (ws (feed w)); try rewrite cleanupWs_ctl; reflexivity.
Qed.

Lemma simCallback_ctl now rnd w : ctl (fst (simCallback now rnd w)) = ctl w.
Proof.
  unfold simCallback. apply forEach_keeps. intros s w'.
  unfold simSymbol. now rewrite deliver_keeps.
Qed.

Lemma onMessage_ctl parsed w : ctl (onMessage parsed w) = ctl w.
Proof.
  destruct parsed as [[data| |]|]; try reflexivity.
  unfold onMessage. apply forEach_keeps. intros d w'.
  unfold onDatum.
  destruct (lookupFromFinnhub (d_s d)); [|reflexivity|reflexivity].
  now rewrite deliver_keeps.
Qed.

Lemma onOpen_ctl h w : ctl (onOpen h w) = (0%Z, timeouts (browser w)).
Proof. reflexivity. Qed.

Lemma Forall_drop_handle {A} (P : nat * A -> Prop) h l :
  Forall P l -> Forall P (drop_handle h l).
Proof.
  intro F. unfold drop_handle. rewrite Forall_forall in *.
  intros x Hx. apply filter_In in Hx. now apply F.
Qed.

Lemma handleReconnect_retry w :
  (reconnectAttempts (feed w) < maxReconnectAttempts)%Z ->
  handleReconnect w
  = {| feed := set_reconnectAttempts (reconnectAttempts (feed w) + 1)%Z
                                    (feed w);
       browser := setTimeout
                    (reconnectDelay * (reconnectAttempts (feed w) + 1))%Z
                    (browser w) |}.
Proof.
  intro L. unfold handleReconnect.
  apply Z.ltb_lt in L. rewrite L. reflexivity.
Qed.

Lemma handleReconnect_fallback w :
  (maxReconnectAttempts <= reconnectAttempts (feed w))%Z ->
  handleReconnect w = startSim w.
Proof.
  intro L. unfold handleReconnect.
  apply Z.ltb_ge in L. rewrite L. reflexivity.
Qed.

Lemma handleReconnect_bounded w :
  reconnect_bounded (ctl w) -> reconnect_bounded (ctl (handleReconnect w)).
Proof.
  intros [[Lo Hi] F]. simpl in Lo, Hi, F.
  destruct (Z_lt_le_dec (reconnectAttempts (feed w)) maxReconnectAttempts)
    as [L|L].
  - rewrite handleReconnect_retry by assumption. split; simpl.
    + lia.
    + apply Forall_app. split; [assumption|]. constructor; [|constructor].
      exists (reconnectAttempts (feed w) + 1)%Z. simpl. split; [lia|reflexivity].
  - rewrite handleReconnect_fallback by assumption.
    rewrite startSim_ctl. now split.
Qed.

Lemma step_bounded w e :
  reconnect_bounded (ctl w) -> reconnect_bounded (ctl (step w e)).
Proof.
  intro B. unfold step. destruct (enabled w e); [|assumption].
  destruct e as [c| |s cb now|s cb|h now rnd|h c|h|h parsed|h|h]; simpl.
  - now rewrite start_ctl.
  - now rewrite stop_ctl.
  - exact B.
  - exact B.
  - now rewrite simCallback_ctl.
  - unfold onReconnectTimer.
    assert (reconnect_bounded (ctl (with_browser w (expire h)))) as B'.
    { destruct B as [A F]. split; [exact A|].
      simpl. now apply Forall_drop_handle. }
    destruct (negb _); [|exact B']. now rewrite initWs_ctl.
  - rewrite onOpen_ctl. destruct B as [A F]. split; simpl.
    + unfold maxReconnectAttempts. lia.
    + exact F.
  - now rewrite onMessage_ctl.
  - unfold onError. now apply handleReconnect_bounded.
  - unfold onClose. apply handleReconnect_bounded.
    now rewrite cleanupWs_ctl.
Qed.

Lemma run_bounded es : forall w,
  reconnect_bounded (ctl w) -> reconnect_bounded (ctl (run w es)).
Proof.
  induction es as [|e es IH]; intros w B; [exact B|].
  simpl. apply IH. now apply step_bounded.
Qed.

Lemma startSim_timer w : timer (feed (startSim w)) <> None.
Proof.
  unfold startSim. destruct (timer (feed w)) eqn:E; simpl.
  - rewrite E. discriminate.
  - discriminate.
Qed.

(** C7, as amended. The delay of reconnect attempt [n] is
    [reconnectDelay * n]: a failure handled while fewer than
    [maxReconnectAttempts] = 5 attempts are counted raises the counter by
    one, arms exactly one timer with that delay and starts no generator;
    a failure handled when the counter has reached 5 arms no timer and
    starts the synthetic generator; in every run the counter stays between
    0 and 5 and every reconnect timer has a delay [reconnectDelay * n] with
    [n] from 1 to 5; after a close event the status reports
    [usingWebSocket = false]. *)
Theorem reconnect_backoff_is_linear_and_capped :
  (forall w,
     (reconnectAttempts (feed w) < maxReconnectAttempts)%Z ->
     let w' := handleReconnect w in
     let n := (reconnectAttempts (feed w) + 1)%Z in
     reconnectAttempts (feed w') = n
     /\ timeouts (browser w')
        = timeouts (browser w)
          ++ [(next_handle (browser w), (reconnectDelay * n)%Z)]
     /\ timer (feed w') = timer (feed w)
     /\ intervals (browser w') = intervals (browser w))
  /\ (forall w,
        reconnectAttempts (feed w) = maxReconnectAttempts ->
        let w' := handleReconnect w in
        timeouts (browser w') = timeouts (browser w)
        /\ sockets (browser w') = sockets (browser w)
        /\ reconnectAttempts (feed w') = maxReconnectAttempts
        /\ timer (feed w') <> None)
  /\ (forall vite es, reconnect_bounded (ctl (run (newWorld vite) es)))
  /\ (forall w, st_usingWebSocket (getConnectionStatus (onClose w)) = false).
Proof.
  split; [|split; [|split]].
  - intros w L w' n. subst w' n.
    rewrite handleReconnect_retry by assumption. repeat split.
  - intros w E w'. subst w'.
    rewrite handleReconnect_fallback by lia.
    pose proof (startSim_ctl w) as C. unfold ctl in C.
    injection C as Ca Ct. repeat split.
    + exact Ct.
    + unfold startSim. destruct (timer (feed w)); reflexivity.
    + now rewrite Ca.
    + apply startSim_timer.
  - intros vite es. apply run_bounded. split; simpl.
    + unfold maxReconnectAttempts. lia.
    + constructor.
  - intro w. unfold onClose, getConnectionStatus. cbn [st_usingWebSocket].
    set (w1 := cleanupWs _).
    assert (usingWs (feed w1) = false) as U.
    { subst w1. unfold cleanupWs. destruct (ws (feed _)); reflexivity. }
    unfold handleReconnect. destruct (_ <? _)%Z; [exact U|].
    unfold startSim. destruct (timer (feed w1)); exact U.
Qed.

Lemma reconnect_backoff_is_linear_and_capped_witness :
  let w0 := newWorld None in
  let w2 := run w0 [Start false; WsError 1; WsClose 1] in
  let w5 := run w0 [Start false; WsClose 1; TimeoutFires 2 false;
                    WsClose 3; TimeoutFires 4 false;
                    WsClose 5; TimeoutFires 6 false;
                    WsClose 7; TimeoutFires 8 false; WsClose 9] in
  ((reconnectAttempts (feed w2) < maxReconnectAttempts)%Z
   /\ timeouts (browser (handleReconnect w2))
      = timeouts (browser w2) ++ [(4%nat, 3000%Z)])
  /\ (reconnectAttempts (feed w5) = maxReconnectAttempts
      /\ timer (feed (handleReconnect w5)) <> None).
Proof.
  intros w0 w2 w5.
  destruct reconnect_backoff_is_linear_and_capped as (Retry & Cap & _ & _).
  assert (reconnectAttempts (feed w2) < maxReconnectAttempts)%Z as L
    by reflexivity.
  assert (reconnectAttempts (feed w5) = maxReconnectAttempts) as E
    by reflexivity.
  split.
  - split; [exact L|]. exact (proj1 (proj2 (Retry w2 L))).
  - split; [exact E|]. exact (proj2 (proj2 (proj2 (Cap w5 E)))).
Defined.

(** *** The synthetic generator's prices *)

Lemma simNext_pos symbol last u :
  0 < last -> unit_interval u -> 0 < simNext symbol last u.
Proof.
  intros Hl [H0 H1]. unfold simNext.
  apply Qmult_lt_0_compat; [assumption|].
  destruct symbol; unfold vol; lra.
Qed.

Lemma toFixed5_nonneg x : 0 <= x -> 0 <= toFixed5 x.
Proof.
  intro H. unfold toFixed5.
  destruct (Qlt_le_dec x 0) as [L|_]; [lra|].
  assert (0 <= Qfloor (Qabs x * 100000 + (1 # 2)))%Z as F.
  { apply (Qfloor_resp_le 0). pose proof (Qabs_nonneg x). lra. }
  unfold Qle. cbn [Qnum Qden]. lia.
Qed.

Lemma toFixed5_vanishes x : 0 <= x -> x < 1 # 200000 -> toFixed5 x == 0.
Proof.
  intros H0 H1. unfold toFixed5.
  destruct (Qlt_le_dec x 0) as [L|_]; [lra|].
  rewrite Qabs_pos by assumption.
  assert (Qfloor (x * 100000 + (1 # 2)) = 0%Z) as ->; [|reflexivity].
  assert (0 <= Qfloor (x * 100000 + (1 # 2)))%Z as Lo.
  { apply (Qfloor_resp_le 0). lra. }
  assert (Qfloor (x * 100000 + (1 # 2)) < 1)%Z as Hi.
  { rewrite Zlt_Qlt. eapply Qle_lt_trans; [apply Qfloor_le|].
    change (inject_Z 1) with 1. lra. }
  lia.
Qed.

Lemma simPrices_pos symbol us : forall last,
  0 < last -> Forall unit_interval us ->
  Forall (fun p => 0 < p) (simPrices symbol us last).
Proof.
  induction us as [|u us IH]; intros last Hl F; simpl; [constructor|].
  inversion F as [|? ? Hu Hus]; subst.
  pose proof (simNext_pos symbol last u Hl Hu) as Hn.
  constructor; [exact Hn|]. now apply IH.
Qed.

Lemma forEach_call_reached tick cbs : forall w,
  exists reached,
    calls (browser (fst (forEach (call tick) cbs w)))
    = calls (browser w) ++ invoked_with tick reached.
Proof.
  induction cbs as [|cb cbs IH]; intro w.
  - exists []. simpl. now rewrite app_nil_r.
  - cbn [forEach]. unfold call at 1.
    destruct (cb_throws cb tick).
    + exists [cb]. reflexivity.
    + destruct (IH (with_browser w (log_call (cb_id cb) tick)))
        as [reached E].
      exists (cb :: reached). rewrite E. simpl. now rewrite <- app_assoc.
Qed.

(** One run of the generator for [symbol] stores [simNext] of the stored
    price and sends [toFixed5] of it, with the interval's timestamp, to the
    subscribers it reaches. *)
Lemma simSymbol_emits ts rnd symbol w :
  let next := simNext symbol (get (prices (feed w)) symbol) (rnd symbol) in
  let w' := fst (simSymbol ts rnd symbol w) in
  get (prices (feed w')) symbol = next
  /\ exists reached,
       calls (browser w')
       = calls (browser w)
         ++ invoked_with (mkTick symbol (toFixed5 next) ts) reached.
Proof.
  intros next w'. subst w'. unfold simSymbol. fold next.
  set (tick := mkTick symbol (toFixed5 next) ts).
  set (w1 := with_feed w _). split.
  - rewrite (deliver_keeps (fun x => get (prices (feed x)) symbol))
      by reflexivity.
    subst w1. simpl. apply get_set_same.
  - change (calls (browser w)) with (calls (browser w1)).
    apply forEach_call_reached.
Qed.

(** C8, as amended. From any strictly positive stored price, in particular
    from the seed prices of EURUSD and GBPUSD, and for every sequence of
    values of [Math.random()] in [0, 1), every price the generator stores
    is strictly positive and every tick price it produces, the stored price
    rounded to five decimals, is at least 0. *)
Theorem generator_prices_never_negative symbol us :
  Forall unit_interval us ->
  (forall last,
     0 < last ->
     Forall (fun p => 0 < p) (simPrices symbol us last)
     /\ Forall (fun p => 0 <= p) (simTicks symbol us last))
  /\ (symbol = EURUSD \/ symbol = GBPUSD ->
      Forall (fun p => 0 < p)
             (simPrices symbol us (get STARTING_PRICES symbol))
      /\ Forall (fun p => 0 <= p)
                (simTicks symbol us (get STARTING_PRICES symbol))).
Proof.
  intro F.
  assert (forall last,
            0 < last ->
            Forall (fun p => 0 < p) (simPrices symbol us last)
            /\ Forall (fun p => 0 <= p) (simTicks symbol us last)) as G.
  { intros last Hl.
    pose proof (simPrices_pos symbol us last Hl F) as P.
    split; [exact P|].
    unfold simTicks. apply Forall_map.
    eapply Forall_impl; [|exact P].
    intros p Hp. apply toFixed5_nonneg. now apply Qlt_le_weak. }
  split; [exact G|].
  intros [->| ->]; apply G; reflexivity.
Qed.

Lemma generator_prices_never_negative_witness :
  let us := [0; 1 # 2; 999 # 1000] in
  Forall unit_interval us
  /\ Forall (fun p => 0 <= p) (simTicks EURUSD us (get STARTING_PRICES EURUSD))
  /\ Forall (fun p => 0 < p) (simPrices XAUUSD us 2350).
Proof.
  intro us.
  assert (Forall unit_interval us) as F.
  { repeat constructor; discriminate. }
  destruct (generator_prices_never_negative EURUSD us F) as [_ Seed].
  destruct (generator_prices_never_negative XAUUSD us F) as [Any _].
  assert (0 < 2350) as L by reflexivity.
  split; [exact F|]. split.
  - exact (proj2 (Seed (or_introl eq_refl))).
  - exact (proj1 (Any 2350 L)).
Defined.

(** *** A long run of low draws *)

Lemma walk_in_simTicks n : forall p,
  In (toFixed5 (walk (S n) p)) (simTicks EURUSD (repeat 0 (S n)) p).
Proof.
  induction n as [|n IH]; intro p.
  - left. reflexivity.
  - unfold walk. rewrite Nat.iter_succ_r.
    change (repeat 0 (S (S n))) with (0 :: repeat 0 (S n)).
    right. apply (IH (simNext EURUSD p 0)).
Qed.

Lemma Qpow_add x n m : Qpow x (n + m) == Qpow x n * Qpow x m.
Proof.
  induction n as [|n IH]; simpl.
  - ring.
  - rewrite IH. ring.
Qed.

Lemma Qpow_nonneg x n : 0 <= x -> 0 <= Qpow x n.
Proof.
  intro H. induction n as [|n IH]; simpl.
  - discriminate.
  - now apply Qmult_le_0_compat.
Qed.

Lemma walk_closed_form n p : walk n p == p * Qpow low_factor n.
Proof.
  induction n as [|n IH].
  - simpl. ring.
  - unfold walk in *. rewrite Nat.iter_succ. unfold simNext at 1.
    fold low_factor. rewrite IH. simpl. ring.
Qed.

Lemma round_up_ge x : x <= round_up x.
Proof.
  unfold round_up. apply Qle_shift_div_l; [reflexivity|].
  apply Qle_ceiling.
Qed.

Lemma low_factor_nonneg : 0 <= low_factor.
Proof. discriminate. Qed.

Lemma sq_bound_ok k : Qpow low_factor (2 ^ k) <= sq_bound k.
Proof.
  induction k as [|k IH].
  - simpl. ring_simplify. apply Qle_refl.
  - rewrite Nat.pow_succ_r'.
    replace (2 * 2 ^ k)%nat with (2 ^ k + 2 ^ k)%nat by lia.
    rewrite Qpow_add. cbn [sq_bound]. cbv zeta.
    eapply Qle_trans; [|apply round_up_ge].
    pose proof (Qpow_nonneg low_factor (2 ^ k) low_factor_nonneg).
    nra.
Qed.

Lemma sq_bound_17_small :
  get STARTING_PRICES EURUSD * sq_bound 17 < 1 # 200000.
Proof. vm_compute. reflexivity. Qed.

(** C8 as stated fails: when [Math.random()] returns 0 in 2^17 runs of the
    generator in a row, the stored EURUSD price has fallen below 0.000005
    and the tick price, rounded to five decimals, is 0. *)
Lemma generator_rounds_price_to_zero :
  let us := repeat 0 (2 ^ 17)%nat in
  let ticks := simTicks EURUSD us (get STARTING_PRICES EURUSD) in
  Forall unit_interval us
  /\ Exists (fun p => p == 0) ticks
  /\ ~ Forall (fun p => 0 < p) ticks.
Proof.
  intros us ticks.
  assert (Forall unit_interval us) as F.
  { apply Forall_forall. intros u Hu. apply repeat_spec in Hu. subst u.
    split; [discriminate | reflexivity]. }
  set (p0 := get STARTING_PRICES EURUSD) in *.
  assert (toFixed5 (walk (2 ^ 17) p0) == 0) as Z0.
  { pose proof (walk_closed_form (2 ^ 17) p0) as C.
    pose proof (sq_bound_ok 17) as B.
    pose proof sq_bound_17_small as S. fold p0 in S.
    pose proof (Qpow_nonneg low_factor (2 ^ 17) low_factor_nonneg) as N.
    assert (0 < p0) as P0 by reflexivity.
    apply toFixed5_vanishes; rewrite C.
    - apply Qmult_le_0_compat; [now apply Qlt_le_weak | exact N].
    - eapply Qle_lt_trans; [|exact S].
      apply Qmult_le_l; assumption. }
  assert (In (toFixed5 (walk (2 ^ 17) p0)) ticks) as I.
  { subst ticks us.
    destruct (2 ^ 17)%nat as [|n] eqn:E.
    - exfalso. revert E. apply Nat.pow_nonzero. discriminate.
    - apply walk_in_simTicks. }
  split; [exact F|]. split.
  - apply Exists_exists. eexists. split; [exact I | exact Z0].
  - intro A. rewrite Forall_forall in A. specialize (A _ I).
    rewrite Z0 in A. discriminate A.
Qed.

End FeedFacts.

(** * Further facts: the ledger over sequences of orders *)

Module LedgerMore.
Import Ledger LedgerSpec LedgerSums.

(** The quantity held in the order's instrument grows by the signed
    quantity, whatever branch the reducer takes. *)
Lemma placeOrder_quantity st nanoid now o :
  quantity (placeOrder st nanoid now o) (o_symbol o)
  == quantity st (o_symbol o) + o_qty o.
Proof.
  unfold quantity, placeOrder.
  pose proof (LedgerFacts.signed_qty nanoid now o) as Sq. cbn zeta in Sq.
  set (t := prepare nanoid now o) in *.
  change (o_symbol o) with (trade_symbol t).
  destruct (get (positions st) (trade_symbol t)) as [ex|] eqn:E.
  - rewrite (LedgerFacts.reducer_existing st t ex E). cbn zeta.
    destruct (Qeq_bool _ 0) eqn:Z0.
    + apply Qeq_bool_iff in Z0. rewrite <- Sq. rewrite Z0. reflexivity.
    + destruct (Z.eqb _ _); cbn [pos_qty]; rewrite Sq; reflexivity.
  - rewrite (LedgerFacts.reducer_absent st t E). cbn [pos_qty].
    rewrite Sq. ring.
Qed.

Lemma dispatch_quantity st d s :
  quantity (dispatch st d) s == quantity st s + ordered s d.
Proof.
  unfold dispatch, ordered.
  destruct (SymbolCode_eqb_spec (o_symbol (d_order d)) s) as [<-|Ne].
  - apply placeOrder_quantity.
  - unfold quantity. rewrite LedgerFacts.placeOrder_other by congruence.
    ring.
Qed.

Lemma dispatchAll_quantity ds : forall st s,
  quantity (dispatchAll st ds) s == quantity st s + netOrdered s ds.
Proof.
  induction ds as [|d ds IH]; intros st s.
  - simpl. ring.
  - change (dispatchAll st (d :: ds)) with (dispatchAll (dispatch st d) ds).
    rewrite IH. rewrite dispatch_quantity. simpl. ring.
Qed.

Lemma integral_plus x y : integral x -> integral y -> integral (x + y).
Proof.
  intros [a Ha] [b Hb]. exists (a + b)%Z.
  rewrite inject_Z_plus, Ha, Hb. reflexivity.
Qed.

Lemma netOrdered_integral s ds :
  Forall (fun d => integral (ordered s d)) ds -> integral (netOrdered s ds).
Proof.
  induction 1 as [|d ds Hd _ IH]; simpl.
  - exists 0%Z. reflexivity.
  - now apply integral_plus.
Qed.

Lemma netOrdered_magnitude s ds : Qabs (netOrdered s ds) <= netMagnitude s ds.
Proof.
  induction ds as [|d ds IH]; simpl.
  - discriminate.
  - eapply Qle_trans; [apply Qabs_triangle|]. lra.
Qed.

(** X1. For whole-number quantities in the range where the source adds
    them without rounding (the magnitude held plus the magnitudes ordered
    is at most 2^53), after any sequence of orders the quantity held in an
    instrument is the quantity held before plus the sum of the signed
    quantities ordered in that instrument, again a whole number in that
    range. *)
Theorem net_quantity_is_sum_of_orders ds st s :
  integral (quantity st s) ->
  Forall (fun d => integral (ordered s d)) ds ->
  Qabs (quantity st s) + netMagnitude s ds <= exact_limit ->
  quantity (dispatchAll st ds) s == quantity st s + netOrdered s ds
  /\ integral (quantity (dispatchAll st ds) s)
  /\ Qabs (quantity (dispatchAll st ds) s) <= exact_limit.
Proof.
  intros I F B. pose proof (dispatchAll_quantity ds st s) as E.
  split; [exact E|]. split.
  - destruct (integral_plus _ _ I (netOrdered_integral s ds F)) as [z Hz].
    exists z. now rewrite E.
  - rewrite E. eapply Qle_trans; [apply Qabs_triangle|].
    pose proof (netOrdered_magnitude s ds). lra.
Qed.

Lemma net_quantity_is_sum_of_orders_witness :
  let ds := [mkDispatch "t1" 0 (mkOrder EURUSD 1000 (108 # 100));
             mkDispatch "t2" 0 (mkOrder GBPUSD 200 (127 # 100));
             mkDispatch "t3" 0 (mkOrder EURUSD (-1500) (109 # 100))] in
  quantity (dispatchAll initialState ds) EURUSD == -500.
Proof.
  intro ds.
  assert (integral (quantity initialState EURUSD)) as I
    by (exists 0%Z; reflexivity).
  assert (Forall (fun d => integral (ordered EURUSD d)) ds) as F.
  { repeat constructor;
      [exists 1000%Z | exists 0%Z | exists (-1500)%Z]; reflexivity. }
  assert (Qabs (quantity initialState EURUSD) + netMagnitude EURUSD ds
          <= exact_limit) as B by discriminate.
  destruct (net_quantity_is_sum_of_orders ds initialState EURUSD I F B)
    as (E & _ & _).
  rewrite E. reflexivity.
Defined.

Lemma dispatchAll_trades ds : forall st,
  trades (dispatchAll st ds) = rev (map preparedTrade ds) ++ trades st.
Proof.
  induction ds as [|d ds IH]; intro st; [reflexivity|].
  change (dispatchAll st (d :: ds)) with (dispatchAll (dispatch st d) ds).
  rewrite IH. simpl. rewrite <- app_assoc. reflexivity.
Qed.

(** X3. The trade log after a sequence of orders is the prepared trades in
    reverse order of execution, most recent first, in front of the log
    held before; the list of recent trades shows the first 20 of them, or
    all when there are fewer. *)
Theorem trade_log_is_most_recent_first ds st :
  trades (dispatchAll st ds) = rev (map preparedTrade ds) ++ trades st
  /\ recentTrades (dispatchAll st ds)
     = firstn 20 (rev (map preparedTrade ds) ++ trades st)
  /\ List.length (recentTrades (dispatchAll st ds))
     = Nat.min 20 (List.length ds + List.length (trades st)).
Proof.
  unfold recentTrades. rewrite dispatchAll_trades.
  split; [reflexivity|]. split; [reflexivity|].
  rewrite length_firstn, length_app, length_rev, length_map. reflexivity.
Qed.

(** X4. The prepared trade encodes the signed quantity as a side and a
    non-negative magnitude, and the reducer's decoding gives the ordered
    quantity back: the side is BUY exactly when the quantity is at least 0
    (an order of 0 is a BUY). *)
Theorem prepare_encodes_signed_quantity nanoid now o :
  let t := prepare nanoid now o in
  0 <= trade_qty t
  /\ (trade_side t = BUY <-> 0 <= o_qty o)
  /\ (trade_side t = SELL <-> o_qty o < 0)
  /\ trade_qty t * (match trade_side t with BUY => 1 | SELL => -(1) end)
     == o_qty o.
Proof.
  intro t. split; [apply Qabs_nonneg|].
  split; [|split; [|apply LedgerFacts.signed_qty]].
  - subst t. unfold prepare. simpl.
    destruct (Qle_bool 0 (o_qty o)) eqn:E.
    + apply Qle_bool_iff in E. tauto.
    + split; [discriminate|]. intro H. apply Qle_bool_iff in H. congruence.
  - subst t. unfold prepare. simpl.
    destruct (Qle_bool 0 (o_qty o)) eqn:E.
    + apply Qle_bool_iff in E. split; [discriminate | intro; lra].
    + split; [|reflexivity]. intros _. apply Qnot_le_lt. intro H.
      apply Qle_bool_iff in H. congruence.
Qed.

Lemma initialState_sound : sound initialState.
Proof. intros s p E. destruct s; discriminate E. Qed.

Lemma blend_positive avg price a b :
  0 < avg -> 0 < price -> 0 <= a -> 0 <= b -> 0 < a + b ->
  0 < (avg * a + price * b) / (a + b).
Proof.
  intros Ha Hp A B AB. apply Qlt_shift_div_l; [assumption|].
  pose proof (Qmult_le_0_compat avg a (Qlt_le_weak _ _ Ha) A) as Pa.
  pose proof (Qmult_le_0_compat price b (Qlt_le_weak _ _ Hp) B) as Pb.
  destruct (Qlt_le_dec 0 a) as [La|La].
  - pose proof (Qmult_lt_0_compat avg a Ha La). lra.
  - assert (0 < b) as Lb by lra.
    pose proof (Qmult_lt_0_compat price b Hp Lb). lra.
Qed.

Lemma weights_positive pq q : ~ pq + q == 0 -> 0 < Qabs pq + Qabs q.
Proof.
  intro Nz. pose proof (LedgerFacts.Qabs_nonzero _ Nz) as P.
  pose proof (Qabs_triangle pq q). lra.
Qed.

Lemma dispatch_sound st d :
  0 < o_price (d_order d) -> sound st -> sound (dispatch st d).
Proof.
  intros Hp Inv s p. unfold dispatch.
  destruct (SymbolCode_eqb_spec s (o_symbol (d_order d))) as [->|Ne].
  - unfold placeOrder.
    set (t := prepare (d_nanoid d) (d_now d) (d_order d)) in *.
    change (o_symbol (d_order d)) with (trade_symbol t).
    change (o_price (d_order d)) with (trade_price t) in Hp.
    destruct (get (positions st) (trade_symbol t)) as [ex|] eqn:E.
    + destruct (Inv _ _ E) as [Ks Ka].
      pose proof (LedgerFacts.reducer_existing st t ex E) as R.
      cbn zeta in R. set (q := trade_qty t * _) in R. rewrite R. clear R.
      destruct (Qeq_bool (pos_qty ex + q) 0) eqn:Z0; [discriminate|].
      assert (~ pos_qty ex + q == 0) as Nz.
      { intro H. apply Qeq_bool_iff in H. congruence. }
      pose proof (weights_positive _ _ Nz) as W.
      destruct (Z.eqb _ _); intro H; injection H as <-;
        cbn [pos_symbol pos_avgPrice]; (split; [exact Ks|]).
      * exact (blend_positive _ _ _ _ Ka Hp (Qabs_nonneg (pos_qty ex))
                 (Qabs_nonneg q) W).
      * exact Hp.
    + rewrite (LedgerFacts.reducer_absent st t E).
      intro H; injection H as <-. cbn [pos_symbol pos_avgPrice].
      split; [reflexivity | exact Hp].
  - rewrite LedgerFacts.placeOrder_other by assumption. apply Inv.
Qed.

(** X5. Starting from the initial ledger, after any sequence of orders
    with positive prices every stored position carries the symbol of the
    slot it is stored in and a strictly positive average price. *)
Theorem positions_stay_sound ds :
  Forall (fun d => 0 < o_price (d_order d)) ds ->
  sound (dispatchAll initialState ds).
Proof.
  intro F. generalize initialState initialState_sound.
  induction F as [|d ds Hd _ IH]; intros st Inv; [exact Inv|].
  change (dispatchAll st (d :: ds)) with (dispatchAll (dispatch st d) ds).
  apply IH. now apply dispatch_sound.
Qed.

Lemma positions_stay_sound_witness :
  let ds := [mkDispatch "t1" 0 (mkOrder EURUSD 1000 (108 # 100));
             mkDispatch "t2" 0 (mkOrder EURUSD 500 (109 # 100))] in
  Forall (fun d => 0 < o_price (d_order d)) ds
  /\ sound (dispatchAll initialState ds).
Proof.
  intro ds.
  assert (Forall (fun d => 0 < o_price (d_order d)) ds) as F
    by (repeat constructor).
  split; [exact F | exact (positions_stay_sound ds F)].
Defined.

Lemma prepare_encodes_signed_quantity_witness :
  let t := prepare "id" 0 (mkOrder EURUSD (-250) (109 # 100)) in
  trade_side t = SELL /\ trade_qty t == 250.
Proof.
  intro t.
  destruct (prepare_encodes_signed_quantity "id" 0%Z
              (mkOrder EURUSD (-250) (109 # 100))) as (_ & _ & Sell & _).
  split; [|reflexivity].
  apply Sell. reflexivity.
Defined.

End LedgerMore.

(** * Further facts: valuation and the order entry *)

Module PortfolioMore.
Import Ledger LedgerSpec LedgerSums Portfolio.

Lemma Qabs_Qabs x : Qabs (Qabs x) == Qabs x.
Proof. apply Qabs_pos. apply Qabs_nonneg. Qed.

(** X9. With a positive last price, a click records one trade for the
    selected instrument at that price whose quantity is the magnitude of
    the form's quantity: the sign typed in the form is ignored.  When the
    quantity is not 0 the recorded side is the button clicked; with a
    quantity of 0 both buttons record a BUY. *)
Theorem handleTrade_records_clicked_side side form last st nanoid now price :
  get last (form_symbol form) = Some price -> 0 < price ->
  exists t,
    trades (handleTrade side form last st nanoid now) = t :: trades st
    /\ trade_symbol t = form_symbol form
    /\ trade_price t = price
    /\ trade_qty t == Qabs (form_qty form)
    /\ (~ form_qty form == 0 -> trade_side t = side)
    /\ (form_qty form == 0 -> trade_side t = BUY).
Proof.
  intros L Hp. unfold handleTrade. rewrite L. cbn [orZero].
  destruct (Qlt_le_dec 0 price) as [_|Le]; [|lra].
  eexists. split; [reflexivity|]. cbn.
  split; [reflexivity|]. split; [reflexivity|].
  pose proof (Qabs_nonneg (form_qty form)) as N.
  split; [|split].
  - destruct side; [apply Qabs_Qabs|].
    rewrite Qabs_opp. apply Qabs_Qabs.
  - intro Nz. pose proof (LedgerFacts.Qabs_nonzero _ Nz) as P.
    destruct side.
    + destruct (Qle_bool 0 (Qabs (form_qty form))) eqn:E; [reflexivity|].
      exfalso. apply Qle_bool_iff in N. congruence.
    + destruct (Qle_bool 0 (- Qabs (form_qty form))) eqn:E; [|reflexivity].
      exfalso. apply Qle_bool_iff in E. lra.
  - intro Z0.
    assert (Qabs (form_qty form) == 0) as A by (rewrite Z0; reflexivity).
    destruct side.
    + destruct (Qle_bool 0 (Qabs (form_qty form))) eqn:E; [reflexivity|].
      exfalso. apply Qle_bool_iff in N. congruence.
    + destruct (Qle_bool 0 (- Qabs (form_qty form))) eqn:E; [reflexivity|].
      exfalso. assert (0 <= - Qabs (form_qty form)) as H by lra.
      apply Qle_bool_iff in H. congruence.
Qed.

Lemma handleTrade_records_clicked_side_witness :
  let last := mkPerSymbol (Some (10850 # 10000)) None None in
  exists t,
    trades (handleTrade SELL (mkForm EURUSD (-250)) last initialState "id" 0)
    = [t]
    /\ trade_qty t == 250 /\ trade_side t = SELL.
Proof.
  intro last.
  assert (get last EURUSD = Some (10850 # 10000)) as L by reflexivity.
  assert (0 < 10850 # 10000) as Hp by reflexivity.
  destruct (handleTrade_records_clicked_side SELL (mkForm EURUSD (-250)) last
              initialState "id" 0%Z _ L Hp)
    as (t & Ht & _ & _ & Hq & Hs & _).
  exists t. split; [exact Ht|]. split; [exact Hq|].
  apply Hs. intro H; discriminate H.
Defined.

End PortfolioMore.

(** * Further facts: the feed *)

Module FeedMore.
Import Feed FeedSpec FeedViews.

(** X10. The two Finnhub tables are inverse to each other: the external
    code of every instrument maps back to that instrument, and a string
    that maps to an instrument is exactly that instrument's external code. *)
Theorem finnhub_codes_round_trip :
  (forall s, mapFromFinnhub (get mapToFinnhub s) = Some s)
  /\ (forall x s, mapFromFinnhub x = Some s -> x = get mapToFinnhub s).
Proof.
  split.
  - intros []; reflexivity.
  - intros x s. unfold mapFromFinnhub.
    destruct (String.eqb x "OANDA:EUR_USD") eqn:E1.
    { apply String.eqb_eq in E1. intro H; injection H as <-. exact E1. }
    destruct (String.eqb x "OANDA:GBP_USD") eqn:E2.
    { apply String.eqb_eq in E2. intro H; injection H as <-. exact E2. }
    destruct (String.eqb x "OANDA:XAU_USD") eqn:E3.
    { apply String.eqb_eq in E3. intro H; injection H as <-. exact E3. }
    discriminate.
Qed.

Lemma finnhub_codes_round_trip_witness :
  mapFromFinnhub "OANDA:GBP_USD" = Some GBPUSD
  /\ "OANDA:GBP_USD"%string = get mapToFinnhub GBPUSD.
Proof.
  assert (mapFromFinnhub "OANDA:GBP_USD" = Some GBPUSD) as H by reflexivity.
  split; [exact H|].
  exact (proj2 finnhub_codes_round_trip "OANDA:GBP_USD"%string GBPUSD H).
Defined.

(** X11. One generator step moves the stored price by less than half the
    instrument's volatility, relative to the previous price: the next price
    lies in [last * (1 - vol/2), last * (1 + vol/2)). *)
Theorem generator_step_is_bounded symbol last u :
  0 < last -> unit_interval u ->
  last * (1 - vol symbol / 2) <= simNext symbol last u
  /\ simNext symbol last u < last * (1 + vol symbol / 2).
Proof.
  intros Hl [H0 H1]. unfold simNext. split.
  - apply Qmult_le_l; [assumption|].
    destruct symbol; unfold vol, Qdiv; change (/ 2) with (1 # 2); lra.
  - apply Qmult_lt_l; [assumption|].
    destruct symbol; unfold vol, Qdiv; change (/ 2) with (1 # 2); lra.
Qed.

Lemma generator_step_is_bounded_witness :
  2350 * (1 - vol XAUUSD / 2) <= simNext XAUUSD 2350 (1 # 4)
  /\ simNext XAUUSD 2350 (1 # 4) < 2350 * (1 + vol XAUUSD / 2).
Proof.
  assert (0 < 2350) as Hl by reflexivity.
  assert (unit_interval (1 # 4)) as Hu by (split; [discriminate|reflexivity]).
  exact (generator_step_is_bounded XAUUSD 2350 (1 # 4) Hl Hu).
Defined.

Lemma Qfloor_half_window y :
  inject_Z (Qfloor (y + (1 # 2))) - y <= 1 # 2
  /\ - (1 # 2) <= inject_Z (Qfloor (y + (1 # 2))) - y.
Proof.
  pose proof (Qfloor_le (y + (1 # 2))) as Lo.
  pose proof (Qlt_floor (y + (1 # 2))) as Hi.
  rewrite inject_Z_plus in Hi. change (inject_Z 1) with 1 in Hi.
  split; lra.
Qed.

Lemma fifth_decimal n : n # 100000 == inject_Z n * (1 # 100000).
Proof. unfold Qeq, inject_Z. simpl. lia. Qed.

(** X12. Rounding to five decimals moves a price by at most half a unit of
    the fifth decimal, for negative numbers as well. *)
Theorem toFixed5_is_within_half_unit x :
  Qabs (toFixed5 x - x) <= 1 # 200000.
Proof.
  apply Qabs_Qle_condition. unfold toFixed5.
  destruct (Qlt_le_dec x 0) as [L|L].
  - rewrite Qabs_neg by lra.
    destruct (Qfloor_half_window (- x * 100000)) as [A B].
    set (n := Qfloor (- x * 100000 + (1 # 2))) in *.
    rewrite fifth_decimal, inject_Z_opp. split; lra.
  - rewrite Qabs_pos by assumption.
    destruct (Qfloor_half_window (x * 100000)) as [A B].
    set (n := Qfloor (x * 100000 + (1 # 2))) in *.
    rewrite fifth_decimal. split; lra.
Qed.

(** *** How the handlers treat the parts of the state *)

Ltac open_handlers :=
  unfold onReconnectTimer, onError, onClose, onOpen, start, stop,
    handleReconnect, cleanupWs, startSim, initWs, ws_close, unsubscribe,
    subscribe, call, with_feed, with_browser;
  cbn;
  repeat match goal with
         | |- context [match ?x with _ => _ end] =>
             lazymatch x with
             | context [match _ with _ => _ end] => fail
             | _ => destruct x eqn:?; cbn
             end
         end;
  try reflexivity; try congruence.

(** The generator's callback and the message listener change nothing that
    is blind to the stored prices and to the record of calls. *)
Lemma simCallback_keeps {B} (proj : World -> B) :
  (forall w id tick, proj (with_browser w (log_call id tick)) = proj w) ->
  (forall w v, proj (with_feed w (set_prices v)) = proj w) ->
  forall now rnd w, proj (fst (simCallback now rnd w)) = proj w.
Proof.
  intros Hc Hp now rnd w. unfold simCallback.
  apply (FeedFacts.forEach_keeps proj). intros s x. unfold simSymbol.
  rewrite (FeedFacts.deliver_keeps proj) by (intros; apply Hc). apply Hp.
Qed.

Lemma onMessage_keeps {B} (proj : World -> B) :
  (forall w id tick, proj (with_browser w (log_call id tick)) = proj w) ->
  (forall w v, proj (with_feed w (set_prices v)) = proj w) ->
  forall parsed w, proj (onMessage parsed w) = proj w.
Proof.
  intros Hc Hp parsed w. destruct parsed as [[data| |]|]; try reflexivity.
  unfold onMessage. apply (FeedFacts.forEach_keeps proj). intros d x.
  unfold onDatum.
  destruct (lookupFromFinnhub (d_s d)); [|reflexivity|reflexivity].
  rewrite (FeedFacts.deliver_keeps proj) by (intros; apply Hc). apply Hp.
Qed.

(** *** The registry of subscribers *)

Lemma quiet_handlers_keep_subs w e :
  match e with Subscribe _ _ _ | Unsubscribe _ _ => False | _ => True end ->
  subs (feed (handle w e)) = subs (feed w).
Proof.
  destruct e as [c| |s cb now|s cb|h now rnd|h c|h|h parsed|h|h];
    intro H; try contradiction; cbn [handle].
  - open_handlers.
  - open_handlers.
  - now apply (simCallback_keeps (fun x => subs (feed x))).
  - open_handlers.
  - open_handlers.
  - now apply (onMessage_keeps (fun x => subs (feed x))).
  - open_handlers.
  - open_handlers.
Qed.

Lemma Set_has_spec l cb :
  Set_has l cb = true <-> In (cb_id cb) (map cb_id l).
Proof.
  unfold Set_has. rewrite existsb_exists, in_map_iff. split.
  - intros (x & Hx & E). apply Nat.eqb_eq in E. now exists x.
  - intros (x & E & Hx). exists x. split; [assumption|].
    now apply Nat.eqb_eq.
Qed.

Lemma Set_add_NoDup l cb :
  NoDup (map cb_id l) -> NoDup (map cb_id (Set_add l cb)).
Proof.
  intro N. unfold Set_add. destruct (Set_has l cb) eqn:E; [assumption|].
  rewrite map_app. simpl.
  assert (~ In (cb_id cb) (map cb_id l)) as Ni.
  { intro I. apply Set_has_spec in I. congruence. }
  clear E. induction l as [|x l IH]; simpl in *.
  - constructor; [intros []|constructor].
  - inversion N as [|? ? Hx Hl]; subst. constructor.
    + rewrite in_app_iff. simpl. intros [I|[I|[]]]; [now apply Hx|].
      apply Ni. now left.
    + apply IH; [assumption|]. intro I. apply Ni. now right.
Qed.

Lemma Set_delete_NoDup l cb :
  NoDup (map cb_id l) -> NoDup (map cb_id (Set_delete l cb)).
Proof.
  unfold Set_delete. induction l as [|x l IH]; intro N; simpl in *;
    [constructor|].
  inversion N as [|? ? Hx Hl]; subst.
  destruct (negb (cb_id x =? cb_id cb)%nat); simpl; [|now apply IH].
  constructor; [|now apply IH].
  intro I. apply Hx. apply in_map_iff in I. destruct I as (y & E & Hy).
  apply filter_In in Hy. apply in_map_iff. exists y. tauto.
Qed.

Lemma Set_delete_absent l cb :
  ~ In (cb_id cb) (map cb_id (Set_delete l cb)).
Proof.
  unfold Set_delete. intro I. apply in_map_iff in I.
  destruct I as (y & E & Hy). apply filter_In in Hy. destruct Hy as [_ Hy].
  rewrite E, Nat.eqb_refl in Hy. discriminate.
Qed.

Lemma Set_add_again l cb : Set_add (Set_add l cb) cb = Set_add l cb.
Proof.
  unfold Set_add. destruct (Set_has l cb) eqn:E.
  - now rewrite E.
  - assert (Set_has (l ++ [cb]) cb = true) as ->; [|reflexivity].
    unfold Set_has. rewrite existsb_app. simpl.
    rewrite Nat.eqb_refl. apply orb_true_iff. right. reflexivity.
Qed.

Lemma step_NoDup w e :
  (forall s, NoDup (map cb_id (get (subs (feed w)) s))) ->
  forall s, NoDup (map cb_id (get (subs (feed (step w e))) s)).
Proof.
  intros N s. unfold step. destruct (enabled w e); [|apply N].
  destruct e as [c| |s' cb now|s' cb|h now rnd|h c|h|h parsed|h|h];
    try (rewrite quiet_handlers_keep_subs by exact I; apply N).
  - cbn [handle]. unfold subscribe, call. cbn.
    destruct (SymbolCode_eqb_spec s s') as [->|Ne].
    + rewrite get_set_same. apply Set_add_NoDup, N.
    + rewrite get_set_other by assumption. apply N.
  - cbn [handle]. unfold unsubscribe. cbn.
    destruct (SymbolCode_eqb_spec s s') as [->|Ne].
    + rewrite get_set_same. apply Set_delete_NoDup, N.
    + rewrite get_set_other by assumption. apply N.
Qed.

(** X13. In every run of the feed a callback is registered at most once
    per instrument, so a tick reaches it at most once; subscribing a
    callback that is already registered leaves the registry as it is. *)
Theorem subscribers_are_registered_once :
  (forall vite es s,
     NoDup (map cb_id (get (subs (feed (run (newWorld vite) es))) s)))
  /\ (forall w s cb now now',
        subs (feed (fst (subscribe s cb now'
                           (fst (subscribe s cb now w)))))
        = subs (feed (fst (subscribe s cb now w)))).
Proof.
  split.
  - intros vite es.
    assert (forall w,
              (forall s, NoDup (map cb_id (get (subs (feed w)) s))) ->
              forall s, NoDup (map cb_id (get (subs (feed (run w es))) s)))
      as G.
    { induction es as [|e es IH]; intros w N; [exact N|].
      simpl. apply IH. now apply step_NoDup. }
    apply G. intros []; constructor.
  - intros w s cb now now'. unfold subscribe, call. cbn.
    rewrite get_set_same, Set_add_again.
    destruct s; reflexivity.
Qed.

Lemma forEach_call_prefix tick cbs : forall w,
  exists k,
    calls (browser (fst (forEach (call tick) cbs w)))
    = calls (browser w) ++ invoked_with tick (firstn k cbs).
Proof.
  induction cbs as [|cb cbs IH]; intro w.
  - exists 0%nat. simpl. now rewrite app_nil_r.
  - cbn [forEach]. unfold call at 1. destruct (cb_throws cb tick).
    + exists 1%nat. reflexivity.
    + destruct (IH (with_browser w (log_call (cb_id cb) tick))) as [k E].
      exists (S k). rewrite E. simpl. now rewrite <- app_assoc.
Qed.

Lemma filter_twice {A} (f : A -> bool) l : filter f (filter f l) = filter f l.
Proof.
  induction l as [|x l IH]; simpl; [reflexivity|].
  destruct (f x) eqn:E; simpl; [rewrite E|]; now rewrite IH.
Qed.

Lemma set_set {A} (r : PerSymbol A) s v v' : set (set r s v) s v' = set r s v'.
Proof. destruct s; reflexivity. Qed.

(** X14. Once the handle returned by [subscribe] has been invoked, the
    delivery of a tick for that instrument no longer calls the callback,
    whatever the other callbacks do; invoking the handle a second time
    changes nothing. *)
Theorem unsubscribed_callback_is_not_called w s cb tick :
  tick_symbol tick = s ->
  let w1 := unsubscribe s cb w in
  (exists reached,
     calls (browser (fst (deliver tick w1)))
     = calls (browser w1) ++ invoked_with tick reached
     /\ Forall (fun x => cb_id x <> cb_id cb) reached)
  /\ unsubscribe s cb w1 = w1.
Proof.
  intros Hs w1. split.
  - unfold deliver. rewrite Hs.
    destruct (forEach_call_prefix tick (get (subs (feed w1)) s) w1)
      as [k E].
    exists (firstn k (get (subs (feed w1)) s)). split; [exact E|].
    apply Forall_forall. intros x Hx Eq.
    apply (Set_delete_absent (get (subs (feed w)) s) cb).
    rewrite <- Eq. apply in_map.
    subst w1. unfold unsubscribe in Hx. cbn in Hx.
    rewrite get_set_same in Hx.
    clear - Hx. revert Hx. generalize (Set_delete (get (subs (feed w)) s) cb).
    intros l. revert k. induction l as [|y l IH]; intros [|k]; simpl;
      try tauto.
    intros [->|H]; [now left | right; eauto].
  - subst w1. unfold unsubscribe, with_feed, set_subs. cbn.
    rewrite get_set_same, set_set. unfold Set_delete.
    now rewrite filter_twice.
Qed.

Lemma unsubscribed_callback_is_not_called_witness :
  let w := run (newWorld None)
             [Subscribe EURUSD (quiet 1) 0; Subscribe EURUSD (quiet 2) 0] in
  let tick := mkTick EURUSD (109 # 100) 5 in
  let w1 := unsubscribe EURUSD (quiet 1) w in
  exists reached,
    calls (browser (fst (deliver tick w1)))
    = calls (browser w1) ++ invoked_with tick reached
    /\ Forall (fun x => cb_id x <> 1%nat) reached.
Proof.
  intros w tick w1.
  assert (tick_symbol tick = EURUSD) as Hs by reflexivity.
  exact (proj1 (unsubscribed_callback_is_not_called w EURUSD (quiet 1)
                  tick Hs)).
Defined.

(** *** Stopping and restarting *)

Lemma stop_clears w :
  timer (feed (stop w)) = None /\ ws (feed (stop w)) = None
  /\ next_handle (browser (stop w)) = next_handle (browser w).
Proof. repeat split; open_handlers. Qed.

Lemma stop_fixed x :
  timer (feed x) = None -> ws (feed x) = None -> stop x = x.
Proof. intros Ht Hw. unfold stop. rewrite Ht, Hw. reflexivity. Qed.

(** X15. After [stop()] the feed holds neither a generator timer nor a
    socket, and a second [stop()] changes nothing at all. *)
Theorem stop_is_idempotent w :
  timer (feed (stop w)) = None
  /\ ws (feed (stop w)) = None
  /\ stop (stop w) = stop w.
Proof.
  destruct (stop_clears w) as (Ht & Hw & _).
  split; [exact Ht|]. split; [exact Hw|]. now apply stop_fixed.
Qed.

(** X16. [start()] after [stop()] always opens a new socket (the
    [WebSocket] constructor returning normally), whatever the feed went
    through before: the feed holds the new socket, reports
    [usingWebSocket = true] and has no generator timer. *)
Theorem start_after_stop_reconnects w :
  let w' := start false (stop w) in
  ws (feed w') = Some (next_handle (browser w))
  /\ st_usingWebSocket (getConnectionStatus w') = true
  /\ timer (feed w') = None
  /\ In (next_handle (browser w), CONNECTING) (sockets (browser w')).
Proof.
  destruct (stop_clears w) as (Ht & Hw & Hn).
  cbv zeta. rewrite FeedFacts.start_key, Hw.
  unfold initWs, new_WebSocket. cbn. rewrite Hn, Ht.
  repeat split. apply in_or_app. right. now left.
Qed.

(** *** The generator's timer *)

Lemma startSim_one_timer w : one_timer w -> one_timer (startSim w).
Proof.
  unfold one_timer, startSim. intro H.
  destruct (timer (feed w)) eqn:E; cbn.
  - now rewrite E.
  - rewrite H. reflexivity.
Qed.

Lemma stop_one_timer w :
  one_timer w -> one_timer (stop w) /\ intervals (browser (stop w)) = [].
Proof.
  unfold one_timer. intro H.
  destruct (stop_clears w) as (Ht & _ & _). rewrite Ht.
  assert (intervals (browser (stop w)) = []) as E; [|now split].
  unfold stop. destruct (timer (feed w)) eqn:T; cbn.
  - assert (drop_handle n (intervals (browser w)) = []) as D.
    { rewrite H. unfold drop_handle. simpl. now rewrite Nat.eqb_refl. }
    unfold cleanupWs, ws_close. cbn.
    repeat match goal with
           | |- context [match ?x with _ => _ end] => destruct x; cbn
           end; exact D.
  - unfold cleanupWs, ws_close. cbn.
    repeat match goal with
           | |- context [match ?x with _ => _ end] => destruct x; cbn
           end; exact H.
Qed.

Lemma generator_view_one_timer w w' :
  generator_view w' = generator_view w -> one_timer w -> one_timer w'.
Proof.
  unfold generator_view, one_timer. intros E H.
  injection E as -> ->. exact H.
Qed.

Lemma handleReconnect_one_timer w :
  one_timer w -> one_timer (handleReconnect w).
Proof.
  intro H. unfold handleReconnect. destruct (_ <? _)%Z.
  - exact H.
  - now apply startSim_one_timer.
Qed.

Lemma cleanupWs_generator_view w :
  generator_view (cleanupWs w) = generator_view w.
Proof. open_handlers. Qed.

Lemma step_one_timer w e : one_timer w -> one_timer (step w e).
Proof.
  intro H. unfold step. destruct (enabled w e); [|exact H].
  destruct e as [c| |s cb now|s cb|h now rnd|h c|h|h parsed|h|h];
    cbn [handle].
  - rewrite FeedFacts.start_key. destruct (ws (feed w));
      [now apply startSim_one_timer|].
    unfold initWs. destruct c; [now apply startSim_one_timer | exact H].
  - now apply stop_one_timer.
  - exact H.
  - exact H.
  - eapply generator_view_one_timer; [|exact H].
    now apply (simCallback_keeps generator_view).
  - unfold onReconnectTimer, initWs.
    destruct (negb _); [destruct c|]; exact H.
  - exact H.
  - eapply generator_view_one_timer; [|exact H].
    now apply (onMessage_keeps generator_view).
  - unfold onError. apply handleReconnect_one_timer. exact H.
  - unfold onClose. apply handleReconnect_one_timer.
    eapply generator_view_one_timer; [apply cleanupWs_generator_view|].
    exact H.
Qed.

(** X17. In every run of the feed at most one generator timer is running,
    and it is the one the feed remembers in [this.timer]; right after
    [stop()] none is running, so no simulated tick can be produced. *)
Theorem at_most_one_generator_timer vite es :
  let w := run (newWorld vite) es in
  one_timer w
  /\ intervals (browser (stop w)) = []
  /\ forall h now rnd, step (stop w) (IntervalFires h now rnd) = stop w.
Proof.
  assert (forall w, one_timer w -> one_timer (run w es)) as G.
  { induction es as [|e es IH]; intros w H; [exact H|].
    simpl. apply IH. now apply step_one_timer. }
  cbv zeta.
  assert (one_timer (run (newWorld vite) es)) as H by (apply G; reflexivity).
  destruct (stop_one_timer _ H) as [_ E].
  split; [exact H|]. split; [exact E|].
  intros h now rnd. unfold step, enabled. now rewrite E.
Qed.

(** *** Messages *)

Lemma forEach_unknown data : forall w,
  Forall unknown_symbol data -> forEach onDatum data w = (w, Normal).
Proof.
  induction data as [|d data IH]; intros w F; [reflexivity|].
  inversion F as [|? ? Hd Hdata]; subst. cbn [forEach].
  unfold onDatum at 1. rewrite Hd. now apply IH.
Qed.

(** X18. A message never affects the connection: whatever it contains and
    whatever the callbacks do, the registry, the timers, the sockets, the
    reconnect counter and the connection flags are as before; only stored
    prices and the calls made change.  A frame that cannot be parsed, an
    error or other frame, and a trade frame all of whose keys the table
    lacks (it has them neither of its own nor inherited) change nothing at
    all.  A datum whose key the table only inherits, such as
    ["constructor"], ends the frame: no callback is called for it or for
    the data after it, and no instrument's price changes. *)
Theorem messages_never_touch_the_connection :
  (forall parsed w, connection_view (onMessage parsed w) = connection_view w)
  /\ (forall data w,
        Forall unknown_symbol data -> onMessage (Some (MsgTrade data)) w = w)
  /\ (forall w, onMessage None w = w /\ onMessage (Some MsgError) w = w
                /\ onMessage (Some MsgOther) w = w)
  /\ (forall d rest w,
        lookupFromFinnhub (d_s d) = Inherited ->
        let w' := onMessage (Some (MsgTrade (d :: rest))) w in
        calls (browser w') = calls (browser w)
        /\ prices (feed w') = prices (feed w)).
Proof.
  split; [|split; [|split]].
  - now apply (onMessage_keeps connection_view).
  - intros data w F. unfold onMessage. now rewrite forEach_unknown.
  - intro w. repeat split.
  - intros d rest w I. cbn [onMessage forEach].
    unfold onDatum. rewrite I. split; reflexivity.
Qed.

Lemma messages_never_touch_the_connection_witness :
  let w := run (newWorld None)
             [Subscribe EURUSD (quiet 1) 0; Start false; WsOpen 1] in
  let data := [mkDatum "BINANCE:BTCUSDT" 65000 5000;
               mkDatum "OANDA:EUR_JPY" (1601 # 10) 5000] in
  let junk := mkDatum "constructor" 1 5000 in
  let live := mkDatum "OANDA:EUR_USD" (109 # 100) 5000 in
  (Forall unknown_symbol data /\ onMessage (Some (MsgTrade data)) w = w)
  /\ calls (browser (onMessage (Some (MsgTrade [junk; live])) w))
     = calls (browser w)
  /\ calls (browser (onMessage (Some (MsgTrade [live])) w))
     <> calls (browser w).
Proof.
  intros w data junk live.
  assert (Forall unknown_symbol data) as F by (repeat constructor).
  assert (lookupFromFinnhub (d_s junk) = Inherited) as I by reflexivity.
  destruct messages_never_touch_the_connection as (_ & Unknown & _ & Ends).
  split; [split; [exact F | exact (Unknown data w F)]|].
  split; [exact (proj1 (Ends junk [live] w I))|].
  vm_compute. discriminate.
Defined.

(** X19. A trade frame stores its price before the callbacks run, so a
    callback that subscribes afterwards is replayed that price, even when a
    callback threw during the delivery. *)
Theorem live_price_is_replayed_to_new_subscriber w d s cb now :
  mapFromFinnhub (d_s d) = Some s ->
  let w1 := onMessage (Some (MsgTrade [d])) w in
  get (prices (feed w1)) s = d_p d
  /\ calls (browser (fst (subscribe s cb now w1)))
     = calls (browser w1) ++ [(cb_id cb, mkTick s (d_p d) (floor_seconds now))].
Proof.
  intros Hs w1.
  assert (get (prices (feed w1)) s = d_p d) as P.
  { assert (lookupFromFinnhub (d_s d) = Instrument s) as Hl
      by (unfold lookupFromFinnhub; now rewrite Hs).
    subst w1. unfold onMessage. cbn [forEach]. unfold onDatum. rewrite Hl.
    set (r := deliver _ _).
    assert (get (prices (feed (fst r))) s = d_p d) as E.
    { subst r.
      rewrite (FeedFacts.deliver_keeps (fun x => get (prices (feed x)) s))
        by reflexivity.
      cbn. apply get_set_same. }
    destruct r as [x [|]]; exact E. }
  split; [exact P|]. clearbody w1.
  unfold subscribe, call. cbn. rewrite P. reflexivity.
Qed.

Lemma live_price_is_replayed_to_new_subscriber_witness :
  let w := run (newWorld None)
             [Subscribe EURUSD (failing 1) 0; Start false; WsOpen 1] in
  let d := mkDatum "OANDA:EUR_USD" (109 # 100) 5000 in
  let w1 := onMessage (Some (MsgTrade [d])) w in
  calls (browser (fst (subscribe EURUSD (quiet 2) 9000 w1)))
  = calls (browser w1) ++ [(2%nat, mkTick EURUSD (109 # 100) 9)].
Proof.
  intros w d w1.
  assert (mapFromFinnhub (d_s d) = Some EURUSD) as Hs by reflexivity.
  exact (proj2 (live_price_is_replayed_to_new_subscriber w d EURUSD
                  (quiet 2) 9000%Z Hs)).
Defined.

(** *** The displayed status *)

Lemma step_keeps_usingWs_off w e :
  is_start e = false -> usingWs (feed w) = false ->
  usingWs (feed (step w e)) = false.
Proof.
  intros Hs U. unfold step. destruct (enabled w e); [|exact U].
  destruct e as [c| |s cb now|s cb|h now rnd|h c|h|h parsed|h|h];
    try discriminate Hs; cbn [handle].
  - open_handlers.
  - open_handlers.
  - exact U.
  - now rewrite (simCallback_keeps (fun x => usingWs (feed x))).
  - open_handlers.
  - open_handlers.
  - now rewrite (onMessage_keeps (fun x => usingWs (feed x))).
  - open_handlers.
  - open_handlers.
Qed.

(** X20. [usingWebSocket] is switched on by [start()] only.  Once it is
    off (every close event switches it off), no sequence of events without
    a [start()] switches it on again, not even a successful reconnect: the
    status line reads "Simulated" in the muted colour and shows no attempt
    count. *)
Theorem status_reads_simulated_until_start w es :
  usingWs (feed w) = false ->
  forallb (fun e => negb (is_start e)) es = true ->
  let status := getConnectionStatus (run w es) in
  st_usingWebSocket status = false
  /\ StatusView.getStatusText status = "Simulated"%string
  /\ StatusView.getStatusColor status = "var(--muted)"%string
  /\ StatusView.showsAttempt status = false.
Proof.
  intros U F.
  assert (usingWs (feed (run w es)) = false) as E.
  { revert w U. induction es as [|e es IH]; intros w U; [exact U|].
    simpl in F. apply andb_true_iff in F. destruct F as [He Hes].
    simpl. apply IH; [exact Hes|]. apply step_keeps_usingWs_off; [|exact U].
    now apply negb_true_iff. }
  cbv zeta. unfold StatusView.getStatusText, StatusView.getStatusColor,
    StatusView.showsAttempt, getConnectionStatus. cbn. rewrite E.
  rewrite !andb_false_r. repeat split.
Qed.

Lemma status_reads_simulated_until_start_witness :
  let w := run (newWorld None) [Start false; WsOpen 1; WsClose 1] in
  let es := [TimeoutFires 2 false; WsOpen 3;
             WsMessage 3 (eurusd_trade (109 # 100) 5000)] in
  feasible w es = true
  /\ st_isConnected (getConnectionStatus (run w es)) = true
  /\ StatusView.getStatusText (getConnectionStatus (run w es))
     = "Simulated"%string.
Proof.
  intros w es.
  assert (usingWs (feed w) = false) as U by reflexivity.
  assert (forallb (fun e => negb (is_start e)) es = true) as F
    by reflexivity.
  split; [reflexivity|]. split; [reflexivity|].
  exact (proj1 (proj2 (status_reads_simulated_until_start w es U F))).
Defined.

End FeedMore.

(** * Further facts: the chart panel, the indicators, the tabs *)

Module ChartFacts.
Import ChartPanel.






Lemma processTicks_snoc symbol ticks tick p :
  processTicks symbol (ticks ++ [tick]) p
  = processTick symbol tick (processTicks symbol ticks p).
Proof. unfold processTicks. now rewrite fold_left_app. Qed.


Lemma skipn_one {A} (l : list A) : skipn 1 l = tl l.
Proof. destruct l; reflexivity. Qed.

Lemma push_bounded_window (l : list Q) x :
  push_bounded (skipn (List.length l - 100) l) x
  = skipn (List.length (l ++ [x]) - 100) (l ++ [x]).
Proof.
  unfold push_bounded. rewrite length_app, length_skipn, length_app.
  cbn [List.length].
  destruct (le_lt_dec 100 (List.length l)) as [L|L].
  - assert ((100 <? List.length l - (List.length l - 100) + 1)%nat = true)
      as -> by (apply Nat.ltb_lt; lia).
    rewrite <- skipn_one, skipn_app, length_skipn.
    replace (1 - (List.length l - (List.length l - 100)))%nat with 0%nat
      by lia.
    rewrite skipn_skipn. cbn [skipn].
    replace (List.length l + 1 - 100)%nat with (1 + (List.length l - 100))%nat
      by lia.
    rewrite (skipn_app (1 + (List.length l - 100))).
    replace (1 + (List.length l - 100) - List.length l)%nat with 0%nat by lia.
    reflexivity.
  - replace (List.length l - 100)%nat with 0%nat by lia.
    replace (List.length l + 1 - 100)%nat with 0%nat by lia.
    cbn [skipn]. rewrite Nat.sub_0_r.
    assert ((100 <? List.length l + 1)%nat = false) as ->
      by (apply Nat.ltb_ge; lia).
    reflexivity.
Qed.

Lemma processTick_fields symbol tick p :
  let p' := processTick symbol tick p in
  priceHistory p' = push_bounded (priceHistory p) (tick_price tick)
  /\ currentPrice p' = tick_price tick
  /\ priceChange p'
     = (if (1 <? List.length (priceHistory p'))%nat
        then tick_price tick - hd 0 (priceHistory p')
        else priceChange p)
  /\ market p' = Market.setLastPrice (market p) symbol (tick_price tick).
Proof.
  unfold processTick.
  destruct (workingCandle p) as [wc|]; [destruct (negb _)|];
    repeat split.
Qed.

Lemma processTicks_history symbol ticks : forall m ready,
  priceHistory (processTicks symbol ticks (newPanel m ready))
  = recent 100 ticks.
Proof.
  induction ticks as [|tick ticks IH] using rev_ind; intros m ready;
    [reflexivity|].
  rewrite processTicks_snoc.
  rewrite (proj1 (processTick_fields symbol tick _)).
  rewrite IH. unfold recent.
  rewrite map_app. cbn [map]. rewrite <- (length_map tick_price ticks).
  rewrite <- (length_map tick_price (ticks ++ [tick])), map_app.
  apply push_bounded_window.
Qed.

(** X22. The price history of a panel never holds more than 100 prices: it
    is the prices of the last 100 ticks (all of them while there are
    fewer), oldest first; from the second tick on, the displayed change is
    the latest price minus the oldest price kept. *)
Theorem price_history_is_last_100 symbol ticks tick m ready :
  let p := processTicks symbol (ticks ++ [tick]) (newPanel m ready) in
  priceHistory p = recent 100 (ticks ++ [tick])
  /\ (List.length (priceHistory p) <= 100)%nat
  /\ List.length (priceHistory p)
     = Nat.min 100 (List.length (ticks ++ [tick]))
  /\ currentPrice p = tick_price tick
  /\ (ticks <> [] ->
      priceChange p = tick_price tick - hd 0 (recent 100 (ticks ++ [tick]))).
Proof.
  cbv zeta.
  pose proof (processTicks_history symbol (ticks ++ [tick]) m ready) as H.
  assert (List.length (recent 100 (ticks ++ [tick]))
          = Nat.min 100 (List.length (ticks ++ [tick]))) as Len.
  { unfold recent. rewrite length_skipn, length_map. lia. }
  split; [exact H|]. rewrite H, Len.
  split; [lia|]. split; [reflexivity|].
  rewrite processTicks_snoc in *.
  destruct (processTick_fields symbol tick
              (processTicks symbol ticks (newPanel m ready)))
    as (_ & C & Ch & _).
  split; [exact C|]. intro Ne. rewrite Ch, H, Len.
  assert ((1 <? Nat.min 100 (List.length (ticks ++ [tick])))%nat = true)
    as ->; [|reflexivity].
  apply Nat.ltb_lt. rewrite length_app. cbn [List.length].
  destruct ticks; [congruence|]. cbn [List.length]. lia.
Qed.

Lemma price_history_is_last_100_witness :
  let t1 := mkTick EURUSD (108 # 100) 1 in
  let t2 := mkTick EURUSD (109 # 100) 1 in
  let t3 := mkTick EURUSD (107 # 100) 2 in
  let p := processTicks EURUSD ([t1; t2] ++ [t3])
                        (newPanel Market.initialState true) in
  priceHistory p = [108 # 100; 109 # 100; 107 # 100]
  /\ priceChange p = (107 # 100) - (108 # 100).
Proof.
  intros t1 t2 t3 p.
  destruct (price_history_is_last_100 EURUSD [t1; t2] t3 Market.initialState
              true) as (H & _ & _ & _ & C).
  split; [exact H|]. apply C. discriminate.
Defined.

(** X23. A tick processed by a panel becomes the last price of the panel's
    instrument and of no other; an order entered next for that instrument
    is executed at exactly that price when it is positive, and is dropped
    when the tick's price is 0 or negative. *)
Theorem order_executes_at_the_tick_price symbol tick p side qty st nanoid now :
  let last := Market.lastPrice (market (processTick symbol tick p)) in
  let st' := Portfolio.handleTrade side (Portfolio.mkForm symbol qty) last st
                                   nanoid now in
  get last symbol = Some (tick_price tick)
  /\ (forall s, s <> symbol ->
        get last s = get (Market.lastPrice (market p)) s)
  /\ (tick_price tick <= 0 -> st' = st)
  /\ (0 < tick_price tick ->
      exists t, Ledger.trades st' = t :: Ledger.trades st
                /\ trade_symbol t = symbol
                /\ trade_price t = tick_price tick).
Proof.
  cbv zeta.
  destruct (processTick_fields symbol tick p) as (_ & _ & _ & ->).
  unfold Market.setLastPrice. cbn [Market.lastPrice].
  assert (get (set (Market.lastPrice (market p)) symbol
                   (Some (tick_price tick))) symbol
          = Some (tick_price tick)) as G by apply get_set_same.
  split; [exact G|]. split; [intros s Ne; now apply get_set_other|].
  unfold Portfolio.handleTrade. cbn [Portfolio.form_symbol]. rewrite G.
  cbn [Portfolio.orZero].
  destruct (Qlt_le_dec 0 (tick_price tick)) as [L|L]; split.
  - intro H. exfalso. apply (Qlt_irrefl 0). eapply Qlt_le_trans; eassumption.
  - intros _. eexists. split; [reflexivity|]. split; reflexivity.
  - reflexivity.
  - intro H. exfalso. apply (Qlt_irrefl 0). eapply Qlt_le_trans; eassumption.
Qed.

Lemma order_executes_at_the_tick_price_witness :
  let zero := mkTick EURUSD 0 7 in
  let live := mkTick EURUSD (109 # 100) 8 in
  let p := newPanel Market.initialState true in
  Portfolio.handleTrade BUY (Portfolio.mkForm EURUSD 1000)
    (Market.lastPrice (market (processTick EURUSD zero p)))
    Ledger.initialState "id" 0 = Ledger.initialState
  /\ exists t,
       Ledger.trades
         (Portfolio.handleTrade BUY (Portfolio.mkForm EURUSD 1000)
            (Market.lastPrice (market (processTick EURUSD live p)))
            Ledger.initialState "id" 0) = [t]
       /\ trade_symbol t = EURUSD /\ trade_price t = 109 # 100.
Proof.
  intros zero live p.
  assert (tick_price zero <= 0) as Z0 by discriminate.
  assert (0 < tick_price live) as L by reflexivity.
  split.
  - exact (proj1 (proj2 (proj2 (order_executes_at_the_tick_price EURUSD zero
             p BUY 1000 Ledger.initialState "id" 0%Z))) Z0).
  - exact (proj2 (proj2 (proj2 (order_executes_at_the_tick_price EURUSD live
             p BUY 1000 Ledger.initialState "id" 0%Z))) L).
Defined.

End ChartFacts.

Module IndicatorFacts.
Import LargeChart.

Lemma slice_last_app old recent_ :
  (0 < List.length recent_)%nat ->
  slice_last (List.length recent_) (old ++ recent_) = recent_.
Proof.
  intro H. unfold slice_last.
  destruct (List.length recent_) as [|n] eqn:E; [lia|].
  rewrite length_app, E.
  replace (List.length old + S n - S n)%nat with (List.length old) by lia.
  rewrite skipn_app, Nat.sub_diag, skipn_all2 by lia. reflexivity.
Qed.

(** X24. The simple moving average is 0 while fewer prices than the period
    are known; otherwise it is computed from the last [period] prices
    alone: older prices do not change it. *)
Theorem moving_average_of_last_prices :
  (forall prices period,
     (List.length prices < period)%nat -> calculateSMA prices period = 0)
  /\ (forall old recent_,
        (0 < List.length recent_)%nat ->
        calculateSMA (old ++ recent_) (List.length recent_)
        = calculateSMA recent_ (List.length recent_)).
Proof.
  split.
  - intros prices period H. unfold calculateSMA.
    apply Nat.ltb_lt in H. now rewrite H.
  - intros old recent_ H. unfold calculateSMA.
    rewrite slice_last_app by assumption.
    assert ((List.length (old ++ recent_) <? List.length recent_)%nat = false)
      as -> by (apply Nat.ltb_ge; rewrite length_app; lia).
    rewrite Nat.ltb_irrefl.
    rewrite <- (app_nil_l recent_) at 4.
    now rewrite slice_last_app.
Qed.

Lemma moving_average_of_last_prices_witness :
  calculateSMA [1; 2] 3 = 0
  /\ calculateSMA ([5; 9] ++ [2; 4]) 2 = calculateSMA [2; 4] 2.
Proof.
  destruct moving_average_of_last_prices as (Few & Last).
  split.
  - apply Few. simpl. lia.
  - apply (Last [5; 9] [2; 4]). simpl. lia.
Defined.

End IndicatorFacts.

Module ViewFacts.
Import StatusView.

(** X25. The status line's text and colour always agree, and they follow
    the two flags: "Live Data" in the positive colour exactly when the feed
    is connected and using the socket, "Connecting..." in the negative
    colour exactly when it uses the socket without being connected,
    "Simulated" in the muted colour otherwise; the attempt count is shown
    only beside "Connecting...". *)
Theorem status_text_and_colour_agree status :
  (getStatusText status = "Live Data"%string
   <-> getStatusColor status = "var(--pos)"%string)
  /\ (getStatusText status = "Connecting..."%string
      <-> getStatusColor status = "var(--neg)"%string)
  /\ (getStatusText status = "Simulated"%string
      <-> getStatusColor status = "var(--muted)"%string)
  /\ (getStatusText status = "Live Data"%string
      <-> Feed.st_isConnected status && Feed.st_usingWebSocket status = true)
  /\ (getStatusText status = "Simulated"%string
      <-> Feed.st_usingWebSocket status = false)
  /\ (showsAttempt status = true ->
      getStatusText status = "Connecting..."%string).
Proof.
  destruct status as [[|] [|] n];
    unfold getStatusText, getStatusColor, showsAttempt; cbn;
    repeat split; intros; try reflexivity; try discriminate.
Qed.

Lemma status_text_and_colour_agree_witness :
  let status := Feed.mkStatus false true 2 in
  showsAttempt status = true
  /\ getStatusText status = "Connecting..."%string.
Proof.
  intro status.
  assert (showsAttempt status = true) as H by reflexivity.
  split; [exact H|].
  exact (proj2 (proj2 (proj2 (proj2 (proj2
           (status_text_and_colour_agree status))))) H).
Defined.

Lemma find_by_id {C} (tabs : list (Tabs.Tab C)) t :
  NoDup (map Tabs.tab_id tabs) -> In t tabs ->
  find (fun tab => String.eqb (Tabs.tab_id tab) (Tabs.tab_id t)) tabs
  = Some t.
Proof.
  induction tabs as [|x tabs IH]; intros N I; [contradiction|].
  inversion N as [|? ? Hx Hn]; subst. cbn [find].
  destruct I as [->|I].
  - now rewrite String.eqb_refl.
  - destruct (String.eqb (Tabs.tab_id x) (Tabs.tab_id t)) eqn:E.
    + apply String.eqb_eq in E. exfalso. apply Hx. rewrite E.
      now apply in_map.
    + now apply IH.
Qed.

Lemma find_no_id {C} (tabs : list (Tabs.Tab C)) d :
  (forall t, In t tabs -> Tabs.tab_id t <> d) ->
  find (fun tab => String.eqb (Tabs.tab_id tab) d) tabs = None.
Proof.
  induction tabs as [|x tabs IH]; intro H; [reflexivity|].
  cbn [find]. destruct (String.eqb (Tabs.tab_id x) d) eqn:E.
  - apply String.eqb_eq in E. exfalso. apply (H x); [now left | exact E].
  - apply IH. intros t I. apply H. now right.
Qed.

(** X26. Without a default tab (or with an empty one) the first tab's
    content is shown; a default that names no tab shows nothing, with no
    fall-back to the first tab; selecting a listed tab shows that tab's
    content when the ids are distinct. *)
Theorem tab_selection {C} :
  (forall (t : Tabs.Tab C) rest,
     Tabs.activeTabContent (t :: rest) (Tabs.initialTab (t :: rest) None)
     = Some (Tabs.tab_content t)
     /\ Tabs.activeTabContent (t :: rest)
          (Tabs.initialTab (t :: rest) (Some ""%string))
        = Some (Tabs.tab_content t))
  /\ (forall (tabs : list (Tabs.Tab C)) d,
        Feed.truthy d = true ->
        (forall t, In t tabs -> Tabs.tab_id t <> d) ->
        Tabs.activeTabContent tabs (Tabs.initialTab tabs (Some d)) = None)
  /\ (forall (tabs : list (Tabs.Tab C)) t,
        NoDup (map Tabs.tab_id tabs) -> In t tabs ->
        Tabs.activeTabContent tabs (Some (Tabs.tab_id t))
        = Some (Tabs.tab_content t)).
Proof.
  split; [|split].
  - intros t rest. cbn. rewrite String.eqb_refl. split; reflexivity.
  - intros tabs d T H. unfold Tabs.initialTab. rewrite T.
    unfold Tabs.activeTabContent. now rewrite find_no_id.
  - intros tabs t N I. unfold Tabs.activeTabContent.
    now rewrite find_by_id.
Qed.

Lemma tab_selection_witness :
  let tabs := [Tabs.mkTab "dashboard" "Dashboard" 1%nat;
               Tabs.mkTab "portfolio" "Portfolio" 2%nat] in
  Tabs.activeTabContent tabs (Tabs.initialTab tabs (Some "settings"%string))
  = None
  /\ Tabs.activeTabContent tabs (Some "portfolio"%string) = Some 2%nat.
Proof.
  intro tabs.
  destruct (@tab_selection nat) as (_ & Missing & Listed).
  split.
  - apply Missing; [reflexivity|].
    intros t [<-|[<-|[]]]; discriminate.
  - apply (Listed tabs (Tabs.mkTab "portfolio" "Portfolio" 2%nat)).
    + repeat constructor; simpl; intuition discriminate.
    + right. now left.
Defined.

End ViewFacts.

Module LedgerRoundTrips.
Import Ledger LedgerSpec LedgerSums.

(** X27. An order that brings a position to exactly 0 leaves no trace of
    its average price: the next order in that instrument, whatever its
    sign, opens a position with that order's quantity at that order's
    price. *)
Theorem closed_position_leaves_no_residue st ex o1 o2 id1 now1 id2 now2 :
  o_symbol o2 = o_symbol o1 ->
  get (positions st) (o_symbol o1) = Some ex ->
  pos_qty ex + o_qty o1 == 0 ->
  let st1 := placeOrder st id1 now1 o1 in
  get (positions st1) (o_symbol o1) = None
  /\ position_is (placeOrder st1 id2 now2 o2) (o_symbol o1)
                 (o_qty o2) (o_price o2).
Proof.
  intros Es E Z0 st1.
  assert (get (positions st1) (o_symbol o1) = None) as N.
  { subst st1. unfold placeOrder.
    pose proof (LedgerFacts.signed_qty id1 now1 o1) as Sq. cbn zeta in Sq.
    set (t := prepare id1 now1 o1) in *.
    change (o_symbol o1) with (trade_symbol t) in *.
    rewrite (LedgerFacts.reducer_existing st t ex E). cbn zeta.
    rewrite <- Sq in Z0. apply Qeq_bool_iff in Z0. now rewrite Z0. }
  split; [exact N|]. clearbody st1.
  rewrite <- Es in *. unfold placeOrder.
  pose proof (LedgerFacts.signed_qty id2 now2 o2) as Sq. cbn zeta in Sq.
  set (t := prepare id2 now2 o2) in *.
  change (o_symbol o2) with (trade_symbol t) in *.
  eexists. split; [apply (LedgerFacts.reducer_absent st1 t N)|].
  cbn [pos_qty pos_avgPrice]. split; [exact Sq | reflexivity].
Qed.

Lemma closed_position_leaves_no_residue_witness :
  let st := placeOrder initialState "t1" 0 (mkOrder EURUSD 1000 (108 # 100)) in
  let o1 := mkOrder EURUSD (-1000) (1085 # 1000) in
  let o2 := mkOrder EURUSD (-300) (109 # 100) in
  position_is (placeOrder (placeOrder st "t2" 0 o1) "t3" 0 o2) EURUSD
              (-300) (109 # 100).
Proof.
  intros st o1 o2.
  assert (o_symbol o2 = o_symbol o1) as Es by reflexivity.
  assert (get (positions st) (o_symbol o1)
          = Some (mkPosition EURUSD (Qabs 1000 * 1) (108 # 100))) as E
    by reflexivity.
  assert (Qabs 1000 * 1 + o_qty o1 == 0) as Z0 by reflexivity.
  exact (proj2 (closed_position_leaves_no_residue st _ o1 o2 "t2" 0%Z "t3"
                  0%Z Es E Z0)).
Defined.

(** X28. Starting without a position in an instrument, an order followed
    by the order of the opposite quantity leaves no position in it,
    whatever the two prices are; both trades are in the log, the later one
    first. *)
Theorem opposite_orders_leave_no_position st s q p1 p2 id1 now1 id2 now2 :
  get (positions st) s = None ->
  let o1 := mkOrder s q p1 in
  let o2 := mkOrder s (- q) p2 in
  let st2 := placeOrder (placeOrder st id1 now1 o1) id2 now2 o2 in
  get (positions st2) s = None
  /\ trades st2
     = prepare id2 now2 o2 :: prepare id1 now1 o1 :: trades st.
Proof.
  intros E o1 o2 st2. subst st2.
  set (st1 := placeOrder st id1 now1 o1).
  split; [|reflexivity].
  pose proof (LedgerFacts.signed_qty id1 now1 o1) as S1.
  pose proof (LedgerFacts.signed_qty id2 now2 o2) as S2.
  cbn zeta in S1, S2. subst o1 o2. cbn [o_qty] in S1, S2.
  assert (get (positions st1) s
          = Some {| pos_symbol := s;
                    pos_qty := trade_qty (prepare id1 now1 (mkOrder s q p1))
                               * (match trade_side
                                          (prepare id1 now1 (mkOrder s q p1))
                                  with BUY => 1 | SELL => -(1) end);
                    pos_avgPrice := p1 |}) as E1.
  { subst st1. unfold placeOrder.
    exact (LedgerFacts.reducer_absent st
             (prepare id1 now1 (mkOrder s q p1)) E). }
  unfold placeOrder.
  set (t2 := prepare id2 now2 (mkOrder s (- q) p2)) in *.
  pose proof (LedgerFacts.reducer_existing st1 t2 _ E1) as R.
  cbn zeta in R. cbn [pos_qty] in R.
  change (trade_symbol t2) with s in R. rewrite R. clear R.
  assert (Qeq_bool
            (trade_qty (prepare id1 now1 (mkOrder s q p1))
             * (match trade_side (prepare id1 now1 (mkOrder s q p1))
                with BUY => 1 | SELL => -(1) end)
             + trade_qty t2
               * (match trade_side t2 with BUY => 1 | SELL => -(1) end))
            0 = true) as ->; [|reflexivity].
  apply Qeq_bool_iff. rewrite S1, S2. ring.
Qed.

Lemma opposite_orders_leave_no_position_witness :
  let st2 := placeOrder (placeOrder initialState "t1" 0
                                    (mkOrder EURUSD 10 (108 # 100)))
                        "t2" 0 (mkOrder EURUSD (- 10) (109 # 100)) in
  get (positions st2) EURUSD = None.
Proof.
  intro st2.
  assert (get (positions initialState) EURUSD = None) as E by reflexivity.
  exact (proj1 (opposite_orders_leave_no_position initialState EURUSD 10
                  (108 # 100) (109 # 100) "t1" 0%Z "t2" 0%Z E)).
Defined.

End LedgerRoundTrips.

Module FanOut.
Import Feed FeedSpec FeedViews.

Lemma forEach_call_upto tick cbs : forall w,
  calls (browser (fst (forEach (call tick) cbs w)))
  = calls (browser w) ++ invoked_with tick (upto_first_throw tick cbs)
  /\ feed (fst (forEach (call tick) cbs w)) = feed w
  /\ (snd (forEach (call tick) cbs w) = Normal
      <-> Forall (fun cb => cb_throws cb tick = false) cbs).
Proof.
  induction cbs as [|cb cbs IH]; intro w.
  - simpl. rewrite app_nil_r. repeat split; constructor.
  - cbn [forEach upto_first_throw]. unfold call at 1 3 5.
    destruct (cb_throws cb tick) eqn:T.
    + cbn. repeat split; try discriminate.
      intro F. inversion F; congruence.
    + destruct (IH (with_browser w (log_call (cb_id cb) tick)))
        as (C & Fd & N).
      split; [|split].
      * rewrite C. cbn. now rewrite <- app_assoc.
      * rewrite Fd. reflexivity.
      * rewrite N. split.
        -- intro F. now constructor.
        -- intro F. now inversion F.
Qed.

Lemma upto_first_throw_stops tick pre c post :
  Forall (fun cb => cb_throws cb tick = false) pre ->
  cb_throws c tick = true ->
  upto_first_throw tick (pre ++ c :: post) = pre ++ [c].
Proof.
  intros F T. induction F as [|cb pre Hcb _ IH]; simpl.
  - now rewrite T.
  - now rewrite Hcb, IH.
Qed.

Lemma upto_first_throw_all tick cbs :
  Forall (fun cb => cb_throws cb tick = false) cbs ->
  upto_first_throw tick cbs = cbs.
Proof.
  induction 1 as [|cb cbs Hcb _ IH]; simpl; [reflexivity|].
  now rewrite Hcb, IH.
Qed.

(** X29. A delivery calls callbacks registered for the tick's instrument
    only, in registration order and each with the identical tick: exactly
    those up to and including the first that throws, and none after it.
    It completes normally exactly when no registered callback throws, and
    then it has reached every one of them. *)
Theorem delivery_follows_registration_order tick w :
  let cbs := get (subs (feed w)) (tick_symbol tick) in
  calls (browser (fst (deliver tick w)))
  = calls (browser w) ++ invoked_with tick (upto_first_throw tick cbs)
  /\ feed (fst (deliver tick w)) = feed w
  /\ (snd (deliver tick w) = Normal
      <-> Forall (fun cb => cb_throws cb tick = false) cbs)
  /\ (forall pre c post,
        cbs = pre ++ c :: post ->
        Forall (fun cb => cb_throws cb tick = false) pre ->
        cb_throws c tick = true ->
        upto_first_throw tick cbs = pre ++ [c])
  /\ (Forall (fun cb => cb_throws cb tick = false) cbs ->
      upto_first_throw tick cbs = cbs).
Proof.
  intro cbs. unfold deliver. fold cbs.
  destruct (forEach_call_upto tick cbs w) as (C & Fd & N).
  split; [exact C|]. split; [exact Fd|]. split; [exact N|]. split.
  - intros pre c post -> F T. now apply upto_first_throw_stops.
  - apply upto_first_throw_all.
Qed.

Lemma delivery_follows_registration_order_witness :
  let w := run (newWorld None)
             [Subscribe EURUSD (quiet 1) 0; Subscribe GBPUSD (quiet 2) 0;
              Subscribe EURUSD (failing 3) 0; Subscribe EURUSD (quiet 4) 0] in
  let tick := mkTick EURUSD (109 # 100) 5 in
  calls (browser (fst (deliver tick w)))
  = calls (browser w) ++ [(1%nat, tick); (3%nat, tick)].
Proof.
  intros w tick.
  destruct (delivery_follows_registration_order tick w)
    as (C & _ & _ & Stops & _).
  assert (get (subs (feed w)) (tick_symbol tick)
          = [quiet 1] ++ failing 3 :: [quiet 4]) as E by reflexivity.
  assert (Forall (fun cb => cb_throws cb tick = false) [quiet 1]) as F
    by (repeat constructor).
  assert (cb_throws (failing 3) tick = true) as T by reflexivity.
  rewrite C, (Stops _ _ _ E F T). reflexivity.
Defined.

Lemma simSymbol_quiet ts rnd s w :
  (forall cb tick, In cb (get (subs (feed w)) s) -> cb_throws cb tick = false) ->
  let next := simNext s (get (prices (feed w)) s) (rnd s) in
  exists w',
    simSymbol ts rnd s w = (w', Normal)
    /\ feed w' = set_prices (set (prices (feed w)) s next) (feed w)
    /\ calls (browser w')
       = calls (browser w)
         ++ invoked_with (mkTick s (toFixed5 next) ts) (get (subs (feed w)) s).
Proof.
  intros Q next. unfold simSymbol. fold next.
  set (tick := mkTick s (toFixed5 next) ts).
  set (w1 := with_feed w _). unfold deliver. cbn [tick_symbol tick].
  change (get (subs (feed w1)) s) with (get (subs (feed w)) s).
  rewrite FeedFacts.forEach_call_quiet.
  - eexists. split; [reflexivity|]. cbn [feed browser]. split; [reflexivity|].
    now rewrite FeedFacts.fold_log_call_calls.
  - apply Forall_forall. intros cb Hcb. now apply Q.
Qed.

(** X30. When no callback throws, one run of the generator moves the
    stored price of all three instruments, whether or not they have
    subscribers, and sends every subscriber one tick carrying the rounded
    new price of its instrument, EURUSD first, then GBPUSD, then XAUUSD. *)
Theorem generator_run_updates_every_instrument now rnd w :
  (forall s cb tick,
     In cb (get (subs (feed w)) s) -> cb_throws cb tick = false) ->
  let next := fun s => simNext s (get (prices (feed w)) s) (rnd s) in
  let sent_to := fun s =>
    invoked_with (mkTick s (toFixed5 (next s)) (floor_seconds now))
                 (get (subs (feed w)) s) in
  let w' := fst (simCallback now rnd w) in
  snd (simCallback now rnd w) = Normal
  /\ (forall s, get (prices (feed w')) s = next s)
  /\ calls (browser w')
     = calls (browser w) ++ sent_to EURUSD ++ sent_to GBPUSD ++ sent_to XAUUSD.
Proof.
  intros Q next sent_to. cbv zeta. unfold simCallback, SYMBOL_KEYS.
  cbn [forEach].
  destruct (simSymbol_quiet (floor_seconds now) rnd EURUSD w (Q EURUSD))
    as (w1 & E1 & F1 & C1). rewrite E1.
  assert (subs (feed w1) = subs (feed w)) as S1 by (now rewrite F1).
  destruct (simSymbol_quiet (floor_seconds now) rnd GBPUSD w1) as
    (w2 & E2 & F2 & C2).
  { rewrite S1. apply Q. }
  rewrite E2.
  assert (subs (feed w2) = subs (feed w)) as S2 by (now rewrite F2, F1).
  destruct (simSymbol_quiet (floor_seconds now) rnd XAUUSD w2) as
    (w3 & E3 & F3 & C3).
  { rewrite S2. apply Q. }
  rewrite E3. cbn [fst snd]. split; [reflexivity|]. split.
  - intro s. rewrite F3, F2, F1. subst next. cbn.
    destruct s; reflexivity.
  - rewrite C3, C2, C1. rewrite S2, S1. rewrite F2, F1. cbn.
    subst sent_to next. cbn. now rewrite <- !app_assoc.
Qed.

Lemma generator_run_updates_every_instrument_witness :
  let w := run (newWorld None) [Subscribe XAUUSD (quiet 1) 0; Start true] in
  get (prices (feed (fst (simCallback 5000 steady w)))) EURUSD
  = simNext EURUSD (get STARTING_PRICES EURUSD) (1 # 2)
  /\ snd (simCallback 5000 steady w) = Normal.
Proof.
  intro w.
  assert (forall s cb tick,
            In cb (get (subs (feed w)) s) -> cb_throws cb tick = false) as Q.
  { intros [] cb tick; simpl; intros [<-|[]] || intros []; reflexivity. }
  destruct (generator_run_updates_every_instrument 5000%Z steady w Q)
    as (N & P & _).
  split; [exact (P EURUSD) | exact N].
Defined.

End FanOut.
